(** * Lifecycle-profile generator: classifier and record synthesis

    A shallow embedding of [scripts/add-all-profiles.py]: the static table
    [PROFILES], the keyword classifier [classify_material], the formatter
    [format_profile] and the loop that generates the new records, together
    with the part of the Python runtime these functions rely on
    ([str.lower], [str.join], [re.search] on alternations of literals,
    decimal rendering of integers, dictionary lookup). *)

From Stdlib Require Import List NArith ZArith Bool String Ascii Lia.
From Stdlib Require Import Permutation DecimalString.
Import ListNotations.

(** ** The fragment of the Python runtime used by the script *)

Module Py.

(** A Python [str] is a sequence of Unicode code points. *)
Definition str := list N.

(** A source-code literal; the literals modelled here are ASCII. *)
Definition lit (s : string) : str := map N_of_ascii (list_ascii_of_string s).

Definition is_ascii (c : N) : bool := (c <? 128)%N.

(** The Unicode character database of the interpreter.  It is not part of
    the repository; its content outside ASCII is a parameter of the model.
    The four fields are CPython's [_PyUnicode_ToLowerFull],
    [_PyUnicode_ToUpperFull], [_PyUnicode_IsCased] and
    [_PyUnicode_IsCaseIgnorable]; the two mappings are consulted for
    non-ASCII code points only, the two predicates only to choose between
    the two small sigmas. *)
Class UnicodeData := {
  ucd_lower : N -> str;
  ucd_upper : N -> str;
  is_cased : N -> bool;
  is_case_ignorable : N -> bool
}.

Section Case.
Context {U : UnicodeData}.

Definition to_lower_full (c : N) : str :=
  if is_ascii c then
    [if ((65 <=? c) && (c <=? 90))%N then (c + 32)%N else c]
  else ucd_lower c.

Definition to_upper_full (c : N) : str :=
  if is_ascii c then
    [if ((97 <=? c) && (c <=? 122))%N then (c - 32)%N else c]
  else ucd_upper c.

(** First code point of [s] that is not case-ignorable. *)
Fixpoint skip_ignorable (s : str) : option N :=
  match s with
  | [] => None
  | c :: s' => if is_case_ignorable c then skip_ignorable s' else Some c
  end.

(** CPython's [handle_capital_sigma]: U+03A3 in the Final_Sigma context
    (after a cased letter, not before one, case-ignorable code points
    skipped) lowers to U+03C2, otherwise to U+03C3.  [before] is the text to
    the left of the sigma, nearest code point first. *)
Definition handle_capital_sigma (before after : str) : N :=
  let final_sigma :=
    match skip_ignorable before with
    | Some c => is_cased c
    | None => false
    end in
  let final_sigma :=
    final_sigma &&
    match skip_ignorable after with
    | Some c => negb (is_cased c)
    | None => true
    end in
  if final_sigma then 0x3C2%N else 0x3C3%N.

Fixpoint do_lower (before s : str) : str :=
  match s with
  | [] => []
  | c :: rest =>
      (if (c =? 0x3A3)%N then [handle_capital_sigma before rest]
       else to_lower_full c)
      ++ do_lower (c :: before) rest
  end.

(** [s.lower()] *)
Definition lower (s : str) : str := do_lower [] s.

(** [s.upper()] *)
Definition upper (s : str) : str := flat_map to_upper_full s.

End Case.

(** [sep.join(items)] *)
Fixpoint join (sep : str) (items : list str) : str :=
  match items with
  | [] => []
  | [x] => x
  | x :: rest => x ++ sep ++ join sep rest
  end.

Fixpoint starts_with (p t : str) : bool :=
  match p, t with
  | [], _ => true
  | _ :: _, [] => false
  | a :: p', b :: t' => (a =? b)%N && starts_with p' t'
  end.

(** [p in t]: [p] occurs in [t] as a contiguous run of code points. *)
Fixpoint contains (p t : str) : bool :=
  starts_with p t ||
  match t with
  | [] => false
  | _ :: t' => contains p t'
  end.

(** The alternatives of a pattern [a1|a2|...|an] whose branches are plain
    literals.  Every pattern of the script has this shape: letters, one
    hyphen (literal outside a character class) and the bar. *)
Fixpoint alternatives (p : string) : list string :=
  match p with
  | EmptyString => [EmptyString]
  | String c rest =>
      if (c =? "|")%char then EmptyString :: alternatives rest
      else match alternatives rest with
           | a :: l => String c a :: l
           | [] => [String c EmptyString]
           end
  end.

(** Truth value of [re.search(pattern, text)] for such a pattern: a match
    object is returned exactly when some alternative occurs in the text. *)
Definition re_search (pattern : string) (text : str) : bool :=
  existsb (fun a => contains (lit a) text) (alternatives pattern).

(** [str(i)] for an [int], as an f-string renders it. *)
Definition str_of_int (i : Z) : str :=
  lit (NilZero.string_of_int (Z.to_int i)).

(** A [dict] written as a literal: its items in source order.  Of several
    items with one key the last one counts, as in Python.  [d[k]] raises
    [KeyError] when [k] is not a key of [d]. *)
Definition dict (V : Type) := list (str * V).

Fixpoint str_eqb (a b : str) : bool :=
  match a, b with
  | [], [] => true
  | x :: a', y :: b' => (x =? y)%N && str_eqb a' b'
  | _, _ => false
  end.

Inductive exn := KeyError (key : str).

Inductive result (A : Type) :=
| Ok (a : A)
| Raise (e : exn).
Arguments Ok {A} a.
Arguments Raise {A} e.

Definition bind {A B : Type} (r : result A) (k : A -> result B) : result B :=
  match r with
  | Ok a => k a
  | Raise e => Raise e
  end.

Fixpoint getitem {V : Type} (d : dict V) (k : str) : result V :=
  match d with
  | [] => Raise (KeyError k)
  | (k', v) :: d' =>
      match getitem d' k with
      | Ok v' => Ok v'
      | Raise e => if str_eqb k' k then Ok v else Raise e
      end
  end.

Definition keys {V : Type} (d : dict V) : list str := map fst d.

(** [k in s] for a collection of strings. *)
Definition mem (k : str) (s : list str) : bool := existsb (str_eqb k) s.

End Py.
Import Py.

Notation "x <- r ;; k" := (bind r (fun x => k))
  (at level 61, r at next level, right associativity).

(** ** The script *)

(** One rating of the table: [{'impact': i, 'confidence': c}]. *)
Record rating := { impact : Z; confidence : str }.

Definition rate (i : Z) (c : string) : rating :=
  {| impact := i; confidence := lit c |}.

(** Material type profiles *)
Definition PROFILES : dict (dict rating) := [
  (lit "timber", [
     (lit "raw", rate 1 "high");
     (lit "manufacturing", rate 2 "high");
     (lit "transport", rate 2 "medium");
     (lit "installation", rate 2 "high");
     (lit "inUse", rate 1 "high");
     (lit "maintenance", rate 2 "medium");
     (lit "endOfLife", rate 1 "high")]);
  (lit "ceramic", [
     (lit "raw", rate 2 "high");
     (lit "manufacturing", rate 5 "high");
     (lit "transport", rate 3 "medium");
     (lit "installation", rate 2 "high");
     (lit "inUse", rate 1 "high");
     (lit "maintenance", rate 1 "high");
     (lit "endOfLife", rate 2 "medium")]);
  (lit "metal", [
     (lit "raw", rate 5 "high");
     (lit "manufacturing", rate 5 "high");
     (lit "transport", rate 3 "medium");
     (lit "installation", rate 2 "high");
     (lit "inUse", rate 1 "high");
     (lit "maintenance", rate 1 "high");
     (lit "endOfLife", rate 1 "high")]);
  (lit "concrete", [
     (lit "raw", rate 3 "high");
     (lit "manufacturing", rate 5 "high");
     (lit "transport", rate 3 "medium");
     (lit "installation", rate 3 "high");
     (lit "inUse", rate 1 "high");
     (lit "maintenance", rate 1 "high");
     (lit "endOfLife", rate 3 "medium")]);
  (lit "glass", [
     (lit "raw", rate 3 "high");
     (lit "manufacturing", rate 4 "high");
     (lit "transport", rate 3 "medium");
     (lit "installation", rate 2 "high");
     (lit "inUse", rate 1 "high");
     (lit "maintenance", rate 1 "high");
     (lit "endOfLife", rate 3 "medium")]);
  (lit "plastic", [
     (lit "raw", rate 4 "high");
     (lit "manufacturing", rate 4 "high");
     (lit "transport", rate 2 "medium");
     (lit "installation", rate 1 "high");
     (lit "inUse", rate 1 "high");
     (lit "maintenance", rate 1 "high");
     (lit "endOfLife", rate 4 "low")]);
  (lit "earth", [
     (lit "raw", rate 1 "high");
     (lit "manufacturing", rate 1 "high");
     (lit "transport", rate 1 "high");
     (lit "installation", rate 2 "medium");
     (lit "inUse", rate 1 "high");
     (lit "maintenance", rate 1 "high");
     (lit "endOfLife", rate 1 "high")]);
  (lit "stone", [
     (lit "raw", rate 3 "high");
     (lit "manufacturing", rate 3 "high");
     (lit "transport", rate 4 "medium");
     (lit "installation", rate 2 "high");
     (lit "inUse", rate 1 "high");
     (lit "maintenance", rate 1 "high");
     (lit "endOfLife", rate 2 "medium")]);
  (lit "textile", [
     (lit "raw", rate 2 "medium");
     (lit "manufacturing", rate 3 "medium");
     (lit "transport", rate 2 "medium");
     (lit "installation", rate 1 "high");
     (lit "inUse", rate 1 "high");
     (lit "maintenance", rate 2 "medium");
     (lit "endOfLife", rate 2 "low")]);
  (lit "biobased", [
     (lit "raw", rate 1 "high");
     (lit "manufacturing", rate 1 "high");
     (lit "transport", rate 2 "medium");
     (lit "installation", rate 2 "medium");
     (lit "inUse", rate 1 "high");
     (lit "maintenance", rate 1 "high");
     (lit "endOfLife", rate 1 "high")]);
  (lit "paint", [
     (lit "raw", rate 3 "medium");
     (lit "manufacturing", rate 3 "medium");
     (lit "transport", rate 2 "medium");
     (lit "installation", rate 2 "medium");
     (lit "inUse", rate 1 "high");
     (lit "maintenance", rate 2 "medium");
     (lit "endOfLife", rate 2 "low")])
].

Section Script.
Context {U : UnicodeData}.

(** The text the patterns are tested on:
    [f"{name} {desc} {' '.join(keywords)}".lower()] *)
Definition material_text (name desc : str) (keywords : list str) : str :=
  lower (name ++ lit " " ++ desc ++ lit " " ++ join (lit " ") keywords).

(** Classify material by keywords *)
Definition classify_material (name desc : str) (keywords : list str) : str :=
  let text := material_text name desc keywords in
  if re_search "timber|wood|oak|bamboo|larch|cedar|plywood" text then
    lit "timber"
  else if re_search "steel|aluminum|aluminium|metal|brass|copper|zinc" text then
    lit "metal"
  else if re_search "concrete|cement|microcement" text then
    lit "concrete"
  else if re_search "glass|glazing" text then
    lit "glass"
  else if re_search "ceramic|terracotta|porcelain|clay|brick|tile" text then
    lit "ceramic"
  else if re_search "plastic|vinyl|upvc|composite|grp|pet|epoxy|resin" text then
    lit "plastic"
  else if re_search "hemp|cork|mycelium|bio-based|biobased|wool|felt" text then
    lit "biobased"
  else if re_search "earth|rammed|lime|plaster|render" text then
    lit "earth"
  else if re_search "stone|marble|granite|slate|travertine" text then
    lit "stone"
  else if re_search "fabric|textile|carpet|leather|upholster" text then
    lit "textile"
  else if re_search "paint|emulsion" text then
    lit "paint"
  else
    lit "concrete".  (* default *)

End Script.

Definition nl : str := [10%N].

(** Format profile as TypeScript *)
Definition format_profile (mat_id : str) (profile : dict rating) : result str :=
  raw <- getitem profile (lit "raw") ;;
  manufacturing <- getitem profile (lit "manufacturing") ;;
  transport <- getitem profile (lit "transport") ;;
  installation <- getitem profile (lit "installation") ;;
  inUse <- getitem profile (lit "inUse") ;;
  maintenance <- getitem profile (lit "maintenance") ;;
  endOfLife <- getitem profile (lit "endOfLife") ;;
  Ok (lit "  '" ++ mat_id ++ lit "': {" ++ nl ++
      lit "    raw: { impact: " ++ str_of_int (impact raw) ++
      lit ", confidence: '" ++ confidence raw ++ lit "' }," ++ nl ++
      lit "    manufacturing: { impact: " ++ str_of_int (impact manufacturing) ++
      lit ", confidence: '" ++ confidence manufacturing ++ lit "' }," ++ nl ++
      lit "    transport: { impact: " ++ str_of_int (impact transport) ++
      lit ", confidence: '" ++ confidence transport ++ lit "' }," ++ nl ++
      lit "    installation: { impact: " ++ str_of_int (impact installation) ++
      lit ", confidence: '" ++ confidence installation ++ lit "' }," ++ nl ++
      lit "    inUse: { impact: " ++ str_of_int (impact inUse) ++
      lit ", confidence: '" ++ confidence inUse ++ lit "' }," ++ nl ++
      lit "    maintenance: { impact: " ++ str_of_int (impact maintenance) ++
      lit ", confidence: '" ++ confidence maintenance ++ lit "' }," ++ nl ++
      lit "    endOfLife: { impact: " ++ str_of_int (impact endOfLife) ++
      lit ", confidence: '" ++ confidence endOfLife ++ lit "' }" ++ nl ++
      lit "  }").

(** A material extracted from MATERIAL_PALETTE. *)
Record material := {
  id : str;
  name : str;
  description : str;
  keywords : list str
}.

(** How the generation loop ends: normally, with the records generated, or
    with an uncaught exception that stops the script, [new_profiles] being
    what had been generated when it was raised. *)
Inductive outcome :=
| Completed (new_profiles : list str)
| Uncaught (e : exn) (new_profiles : list str).

Section Loop.
Context {U : UnicodeData}.

(** The table the loop indexes; the script uses the global [PROFILES]. *)
Variable profiles : dict (dict rating).

(** [for mat in materials: ...], started with the records [new_profiles]
    generated so far. *)
Fixpoint generate_from (existing_profiles : list str)
    (materials : list material) (new_profiles : list str) : outcome :=
  match materials with
  | [] => Completed new_profiles
  | mat :: rest =>
      if negb (mem (id mat) existing_profiles) then
        let mat_type :=
          classify_material (name mat) (description mat) (keywords mat) in
        match getitem profiles mat_type with
        | Raise e => Uncaught e new_profiles
        | Ok profile =>
            match format_profile (id mat) profile with
            | Raise e => Uncaught e new_profiles
            | Ok text =>
                generate_from existing_profiles rest (new_profiles ++ [text])
            end
        end
      else generate_from existing_profiles rest new_profiles
  end.

End Loop.

(** Generate new profiles *)
Definition generate {U : UnicodeData} (existing_profiles : list str)
    (materials : list material) : outcome :=
  generate_from PROFILES existing_profiles materials [].

(** ** Notions used to state the properties *)

(** The classifier as an ordered list of (pattern, category) rules, first
    match wins, with a default. *)
Definition RULES : list (string * string) := [
  ("timber|wood|oak|bamboo|larch|cedar|plywood", "timber");
  ("steel|aluminum|aluminium|metal|brass|copper|zinc", "metal");
  ("concrete|cement|microcement", "concrete");
  ("glass|glazing", "glass");
  ("ceramic|terracotta|porcelain|clay|brick|tile", "ceramic");
  ("plastic|vinyl|upvc|composite|grp|pet|epoxy|resin", "plastic");
  ("hemp|cork|mycelium|bio-based|biobased|wool|felt", "biobased");
  ("earth|rammed|lime|plaster|render", "earth");
  ("stone|marble|granite|slate|travertine", "stone");
  ("fabric|textile|carpet|leather|upholster", "textile");
  ("paint|emulsion", "paint")
]%string.

Definition DEFAULT : string := "concrete".

Definition pattern (r : string * string) : string := fst r.
Definition category (r : string * string) : str := lit (snd r).

Fixpoint first_match (rules : list (string * string)) (text : str)
    (default : str) : str :=
  match rules with
  | [] => default
  | r :: rest =>
      if re_search (pattern r) text then category r
      else first_match rest text default
  end.

(** Every category the classifier mentions: those of the rules, then the
    default. *)
Definition CATEGORIES : list str := map category RULES ++ [lit DEFAULT].

(** The lifecycle phases, in record order, and the confidence labels. *)
Definition PHASE_NAMES : list string :=
  ["raw"; "manufacturing"; "transport"; "installation"; "inUse";
   "maintenance"; "endOfLife"]%string.

Definition PHASES : list str := map lit PHASE_NAMES.

Definition CONFIDENCES : list str := map lit ["high"; "medium"; "low"]%string.

(** A rating within the scale: impact 1 to 5, a known confidence label. *)
Definition valid_rating (r : rating) : Prop :=
  (1 <= impact r <= 5)%Z /\ In (confidence r) CONFIDENCES.

Definition valid_ratingb (r : rating) : bool :=
  ((1 <=? impact r) && (impact r <=? 5))%Z && mem (confidence r) CONFIDENCES.

(** A profile that rates every phase within the scale. *)
Definition complete_profile (p : dict rating) : bool :=
  forallb (fun phase =>
             match getitem p phase with
             | Ok r => valid_ratingb r
             | Raise _ => false
             end) PHASES.

(** The lines of a rendered record. *)
Definition header (mat_id : str) : str :=
  lit "  '" ++ mat_id ++ lit "': {" ++ nl.

Definition phase_line (phase : string) (r : rating) (comma : bool) : str :=
  lit "    " ++ lit phase ++ lit ": { impact: " ++ str_of_int (impact r) ++
  lit ", confidence: '" ++ confidence r ++ lit "' }" ++
  (if comma then lit "," else []).

Definition count_key {V : Type} (k : str) (d : dict V) : nat :=
  List.length (filter (str_eqb k) (keys d)).

(** *** ASCII letter case *)

Definition ascii_swapcase (c : N) : N :=
  if ((65 <=? c) && (c <=? 90))%N then (c + 32)%N
  else if ((97 <=? c) && (c <=? 122))%N then (c - 32)%N
  else c.

(** [s'] is [s] with the case of some of its ASCII letters changed. *)
Definition ascii_case_variant (s s' : str) : Prop :=
  Forall2 (fun c c' => c' = c \/ c' = ascii_swapcase c) s s'.

(** *** Lowercasing without the Final_Sigma rule

    U+03A3 always lowers to U+03C3 here.  The result differs from [lower]
    only in which of the two small sigmas stands at some positions. *)
Section Lower0.
Context {U : UnicodeData}.

Definition lower_cp (c : N) : str :=
  if (c =? 0x3A3)%N then [0x3C3%N] else to_lower_full c.

Definition lower0 (s : str) : str := flat_map lower_cp s.

End Lower0.

Definition fold_sigma (c : N) : N := if (c =? 0x3C2)%N then 0x3C3%N else c.

(** A pattern branch made of lowercase ASCII letters and hyphens, not empty:
    the shape of every alternative of every rule. *)
Definition plain_char (c : N) : bool :=
  ((97 <=? c) && (c <=? 122) || (c =? 45))%N.

Definition plain (p : str) : bool :=
  match p with
  | [] => false
  | _ => forallb plain_char p
  end.

(** *** Reading a rendered record back *)

Fixpoint strip_prefix (p s : str) : option str :=
  match p, s with
  | [], _ => Some s
  | _ :: _, [] => None
  | a :: p', b :: s' => if (a =? b)%N then strip_prefix p' s' else None
  end.

Fixpoint span (f : N -> bool) (s : str) : str * str :=
  match s with
  | [] => ([], [])
  | c :: s' =>
      if f c then let (a, b) := span f s' in (c :: a, b) else ([], s)
  end.

Fixpoint split_lines (s : str) : list str :=
  match s with
  | [] => [[]]
  | c :: s' =>
      if (c =? 10)%N then [] :: split_lines s'
      else match split_lines s' with
           | l :: ls => (c :: l) :: ls
           | [] => [[c]]
           end
  end.

Definition is_digit (c : N) : bool := ((48 <=? c) && (c <=? 57))%N.

Definition is_letter (c : N) : bool :=
  ((65 <=? c) && (c <=? 90) || (97 <=? c) && (c <=? 122))%N.

Definition read_digits (ds : str) : option Z :=
  match ds with
  | [] => None
  | _ => Some (fold_left (fun acc d => 10 * acc + (Z.of_N d - 48))%Z ds 0%Z)
  end.

(** One line [    phase: { impact: 3, confidence: 'high' }], with or
    without a comma after it. *)
Definition read_phase_line (l : str) : option (str * rating) :=
  let (_, l) := span (N.eqb 32) l in
  let (phase, l) := span is_letter l in
  match strip_prefix (lit ": { impact: ") l with
  | None => None
  | Some l =>
      let (ds, l) := span is_digit l in
      match read_digits ds, strip_prefix (lit ", confidence: '") l with
      | Some i, Some l =>
          let (conf, l) := span (fun c => negb (c =? 39)%N) l in
          match strip_prefix (lit "' }") l with
          | Some l =>
              if str_eqb l [] || str_eqb l (lit ",")
              then Some (phase, {| impact := i; confidence := conf |})
              else None
          | None => None
          end
      | _, _ => None
      end
  end.

(** The phase lines of a record body, up to the closing [  }]. *)
Fixpoint read_phases (ls : list str) : option (list (str * rating)) :=
  match ls with
  | [] => None
  | [l] => if str_eqb l (lit "  }") then Some [] else None
  | l :: rest =>
      match read_phase_line l, read_phases rest with
      | Some x, Some xs => Some (x :: xs)
      | _, _ => None
      end
  end.

(** The record of [mat_id]: the header line [  'mat_id': {], then the
    phases. *)
Definition read_record (mat_id text : str) : option (list (str * rating)) :=
  match strip_prefix (header mat_id) text with
  | Some body => read_phases (split_lines body)
  | None => None
  end.

(** *** An excerpt of the Unicode character database

    The entries of Unicode 14 for U+0000 to U+017F (Basic Latin, Latin-1
    Supplement, Latin Extended-A); code points beyond are left caseless.
    It serves to run the model on concrete inputs. *)

Definition between (lo hi c : N) : bool := ((lo <=? c) && (c <=? hi))%N.

Definition latin_lower (c : N) : str :=
  if (c =? 0x130)%N then [0x69; 0x307]%N
  else if (c =? 0x178)%N then [0xFF%N]
  else if between 0xC0 0xDE c && negb (c =? 0xD7)%N then [(c + 32)%N]
  else if (between 0x100 0x137 c || between 0x14A 0x177 c) && N.even c
       then [(c + 1)%N]
  else if (between 0x139 0x148 c || between 0x179 0x17E c) && N.odd c
       then [(c + 1)%N]
  else [c].

Definition latin_upper (c : N) : str :=
  if (c =? 0xB5)%N then [0x39C%N]
  else if (c =? 0xDF)%N then [0x53; 0x53]%N
  else if (c =? 0xFF)%N then [0x178%N]
  else if (c =? 0x131)%N then [0x49%N]
  else if (c =? 0x149)%N then [0x2BC; 0x4E]%N
  else if (c =? 0x17F)%N then [0x53%N]
  else if between 0xE0 0xFE c && negb (c =? 0xF7)%N then [(c - 32)%N]
  else if (between 0x100 0x137 c || between 0x14A 0x177 c) && N.odd c
       then [(c - 1)%N]
  else if (between 0x139 0x148 c || between 0x179 0x17E c) && N.even c
       then [(c - 1)%N]
  else [c].

Definition latin_cased (c : N) : bool :=
  between 0x41 0x5A c || between 0x61 0x7A c ||
  (c =? 0xAA)%N || (c =? 0xB5)%N || (c =? 0xBA)%N ||
  between 0xC0 0xD6 c || between 0xD8 0xF6 c || between 0xF8 0x17F c.

Definition latin_case_ignorable (c : N) : bool :=
  existsb (N.eqb c)
    [0x27; 0x2E; 0x3A; 0x5E; 0x60; 0xA8; 0xAD; 0xAF; 0xB4; 0xB7; 0xB8]%N.

Definition latin : UnicodeData := {|
  ucd_lower := latin_lower;
  ucd_upper := latin_upper;
  is_cased := latin_cased;
  is_case_ignorable := latin_case_ignorable
|}.

(** *** The generation loop *)

Section LoopNotions.
Context {U : UnicodeData}.

(** The materials the loop generates a record for: those whose id is not
    among the existing profiles. *)
Definition pending (existing_profiles : list str)
    (materials : list material) : list material :=
  filter (fun mat => negb (mem (id mat) existing_profiles)) materials.

(** [text] is the record of [mat]: the profile of its category in the
    table, rendered under its id. *)
Definition record_of (profiles : dict (dict rating)) (mat : material)
    (text : str) : Prop :=
  exists profile,
    getitem profiles
      (classify_material (name mat) (description mat) (keywords mat))
    = Ok profile /\
    format_profile (id mat) profile = Ok text.

(** A table rejected before any material is looked at: whatever the
    materials, the run stops with an exception and no record generated. *)
Definition rejected_before_processing (profiles : dict (dict rating)) : Prop :=
  forall existing_profiles materials,
    exists e,
      generate_from profiles existing_profiles materials [] = Uncaught e [].

End LoopNotions.

(** A table in which some category of the classifier has no entry. *)
Definition lacks_profile (profiles : dict (dict rating)) : Prop :=
  exists c, In c CATEGORIES /\ ~ In c (keys profiles).

(** *** Concrete inputs *)

Definition oak_flooring : material := {|
  id := lit "oak-flooring";
  name := lit "Oak Flooring";
  description := lit "solid oak boards";
  keywords := [lit "wood"; lit "flooring"]
|}.

Definition wall_paint : material := {|
  id := lit "wall-paint";
  name := lit "Wall Paint";
  description := lit "matt emulsion";
  keywords := [lit "paint"]
|}.

(** [PROFILES] with the entry of paint taken out. *)
Definition PROFILES_without_paint : dict (dict rating) :=
  filter (fun kv => negb (str_eqb (fst kv) (lit "paint"))) PROFILES.

(** U+017F LATIN SMALL LETTER LONG S, then [teel]. *)
Definition long_s_teel : str := 0x17F%N :: lit "teel".

(** ** The rest of the script: reading the palette *)

(** *** String methods *)

(** [Py_UNICODE_ISSPACE]: the code points that [str.strip] removes and
    that [\s] matches. *)
Definition is_space (c : N) : bool :=
  between 0x9 0xD c || between 0x1C 0x20 c || (c =? 0x85)%N || (c =? 0xA0)%N ||
  (c =? 0x1680)%N || between 0x2000 0x200A c || (c =? 0x2028)%N ||
  (c =? 0x2029)%N || (c =? 0x202F)%N || (c =? 0x205F)%N || (c =? 0x3000)%N.

Fixpoint lstrip_with (f : N -> bool) (s : str) : str :=
  match s with
  | [] => []
  | c :: s' => if f c then lstrip_with f s' else s
  end.

Definition rstrip_with (f : N -> bool) (s : str) : str :=
  rev (lstrip_with f (rev s)).

Definition strip_with (f : N -> bool) (s : str) : str :=
  rstrip_with f (lstrip_with f s).

(** [s.strip()] *)
Definition str_strip (s : str) : str := strip_with is_space s.

(** [s.strip(chars)] *)
Definition str_strip_chars (chars s : str) : str :=
  strip_with (fun c => existsb (N.eqb c) chars) s.

(** [s.split(sep)] for a separator of one code point. *)
Fixpoint str_split (sep : N) (s : str) : list str :=
  match s with
  | [] => [[]]
  | c :: s' =>
      if (c =? sep)%N then [] :: str_split sep s'
      else match str_split sep s' with
           | x :: xs => (c :: x) :: xs
           | [] => [[c]]
           end
  end.

(** The two quote characters, ['] and the double quote. *)
Definition QUOTES : str := [39; 34]%N.

(** [[k.strip().strip(QUOTES) for k in keywords_str.split(',')]] *)
Definition parse_keywords (keywords_str : str) : list str :=
  map (fun k => str_strip_chars QUOTES (str_strip k)) (str_split 44 keywords_str).

(** *** Notions used to state the properties of the parsing *)

Definition is_quote (c : N) : bool := existsb (N.eqb c) QUOTES.

Definition starts_in (f : N -> bool) (s : str) : bool :=
  match s with
  | [] => false
  | c :: _ => f c
  end.

Definition ends_in (f : N -> bool) (s : str) : bool := starts_in f (rev s).

(** A keyword that survives quoting: no comma, no quote at either end. *)
Definition clean_keyword (k : str) : Prop :=
  ~ In 44%N k /\ starts_in is_quote k = false /\ ends_in is_quote k = false.

(** A keyword array as constants.ts writes it: ['a', 'b', 'c']
    without the brackets. *)
Definition render_keywords (ks : list str) : str :=
  join (lit ", ") (map (fun k => lit "'" ++ k ++ lit "'") ks).

(** *** Regular expressions

    The constructs the remaining patterns of the script are made of:
    literal text, one character of a set, a set repeated (greedy or lazy),
    concatenation and capturing groups.  Matching is by backtracking in
    the order of [re]: a greedy repetition tries the longest run first, a
    lazy one the shortest; the continuation [k] is what remains to be
    matched. *)

Inductive charset :=
| Char (c : N)      (* the code point itself *)
| Dot               (* [.] under [re.DOTALL] *)
| NotChar (c : N)   (* [[^c]] *)
| Space.            (* [\s] *)

Definition in_charset (cs : charset) (c : N) : bool :=
  match cs with
  | Char x => (c =? x)%N
  | Dot => true
  | NotChar x => negb (c =? x)%N
  | Space => is_space c
  end.

Inductive regex :=
| Lit (s : string)
| One (cs : charset)
| Star (cs : charset) (greedy : bool)
| Cat (r1 r2 : regex)
| Group (r : regex).

(** [cs+] *)
Definition Plus (cs : charset) : regex := Cat (One cs) (Star cs true).

Definition Seq (rs : list regex) : regex := fold_right Cat (Lit "") rs.

Section Matcher.
Variable R : Type.

Fixpoint star_greedy (cs : charset) (k : str -> option R) (s : str)
    : option R :=
  match s with
  | [] => k []
  | c :: s' =>
      if in_charset cs c then
        match star_greedy cs k s' with
        | Some r => Some r
        | None => k s
        end
      else k s
  end.

Fixpoint star_lazy (cs : charset) (k : str -> option R) (s : str)
    : option R :=
  match k s with
  | Some r => Some r
  | None =>
      match s with
      | [] => None
      | c :: s' => if in_charset cs c then star_lazy cs k s' else None
      end
  end.

(** [run r s caps k]: match [r] at the start of [s], the groups closed so
    far being [caps], then continue with [k] on the rest. *)
Fixpoint run (r : regex) (s : str) (caps : list str)
    (k : str -> list str -> option R) : option R :=
  match r with
  | Lit l =>
      match strip_prefix (lit l) s with
      | Some s' => k s' caps
      | None => None
      end
  | One cs =>
      match s with
      | [] => None
      | c :: s' => if in_charset cs c then k s' caps else None
      end
  | Star cs greedy =>
      (if greedy then star_greedy else star_lazy) cs (fun s' => k s' caps) s
  | Cat r1 r2 => run r1 s caps (fun s' caps' => run r2 s' caps' k)
  | Group r0 =>
      run r0 s caps
        (fun s' caps' =>
           k s' (caps' ++ [firstn (List.length s - List.length s') s]))
  end.

End Matcher.
Arguments star_greedy {R} cs k s.
Arguments star_lazy {R} cs k s.
Arguments run {R} r s caps k.

(** A match at the start of [s]: its groups and the text after it. *)
Definition match_at (r : regex) (s : str) : option (list str * str) :=
  run r s [] (fun s' caps => Some (caps, s')).

(** [m.group(n)] for [n >= 1] *)
Definition group (n : nat) (caps : list str) : str := nth (n - 1) caps [].

(** [re.search(r, s)]: the groups of the leftmost match. *)
Fixpoint search (r : regex) (s : str) : option (list str) :=
  match match_at r s with
  | Some (caps, _) => Some caps
  | None =>
      match s with
      | [] => None
      | _ :: s' => search r s'
      end
  end.

(** [re.finditer(r, s)]: the groups of the matches found from left to
    right, each search starting where the previous match ended; [skip] is
    the number of code points still covered by the previous match.  (The
    patterns of the script match no empty text.) *)
Fixpoint finditer_from (r : regex) (s : str) (skip : nat) : list (list str) :=
  match skip with
  | S n =>
      match s with
      | [] => []
      | _ :: s' => finditer_from r s' n
      end
  | O =>
      match match_at r s with
      | Some (caps, rest) =>
          caps ::
          match s with
          | [] => []
          | _ :: s' =>
              finditer_from r s' (List.length s - List.length rest - 1)
          end
      | None =>
          match s with
          | [] => []
          | _ :: s' => finditer_from r s' 0
          end
      end
  end.

Definition finditer (r : regex) (s : str) : list (list str) :=
  finditer_from r s 0.

(** *** Reading constants.ts *)

(** The palette pattern, piece by piece:
    [export const MATERIAL_PALETTE] [.*?] [\[] [( .*? )] [\];] *)
Definition PALETTE_RE : regex :=
  Seq [Lit "export const MATERIAL_PALETTE"; Star Dot false; Lit "[";
       Group (Star Dot false); Lit "];"].

(** The material pattern, piece by piece:
    [\{] [\s*] [id:] [\s*] ['] [( [^']+ )] [']
    [.*?] [name:] [\s*] ['] [( [^']* )] [']
    [.*?] [description:] [\s*] ['] [( [^']* )] [']
    [.*?] [keywords:] [\s*] [\[] [( .*? )] [\]] *)
Definition MATERIAL_RE : regex :=
  Seq [Lit "{"; Star Space true; Lit "id:"; Star Space true;
       Lit "'"; Group (Plus (NotChar 39)); Lit "'";
       Star Dot false; Lit "name:"; Star Space true;
       Lit "'"; Group (Star (NotChar 39) true); Lit "'";
       Star Dot false; Lit "description:"; Star Space true;
       Lit "'"; Group (Star (NotChar 39) true); Lit "'";
       Star Dot false; Lit "keywords:"; Star Space true;
       Lit "["; Group (Star Dot false); Lit "]"].

(** The profile section pattern, piece by piece:
    [MATERIAL_LIFECYCLE_PROFILES] [.*?] [\{] [( .*? )] [\};] *)
Definition PROFILES_SECTION_RE : regex :=
  Seq [Lit "MATERIAL_LIFECYCLE_PROFILES"; Star Dot false; Lit "{";
       Group (Star Dot false); Lit "};"].

(** The profile id pattern, piece by piece:
    ['] [( [^']+ )] [':] [\s*] [\{] *)
Definition PROFILE_ID_RE : regex :=
  Seq [Lit "'"; Group (Plus (NotChar 39)); Lit "':"; Star Space true;
       Lit "{"].

(** Extract all material IDs and details from MATERIAL_PALETTE *)
Definition read_materials (materials_text : str) : list material :=
  map (fun m => {| id := group 1 m;
                   name := group 2 m;
                   description := group 3 m;
                   keywords := parse_keywords (group 4 m) |})
      (finditer MATERIAL_RE materials_text).

(** Extract existing profiles.  The set is kept as the list of the ids
    added; the script only tests membership in it. *)
Definition read_existing_profiles (content : str) : list str :=
  match search PROFILES_SECTION_RE content with
  | Some m => map (group 1) (finditer PROFILE_ID_RE (group 1 m))
  | None => []
  end.

(** How the script ends, up to the generation of the new records:
    [exit(1)] when the palette is not found, otherwise the outcome of the
    generation loop.  The insertion of the records into the text (the two
    [re.sub]) and the console output are not modelled. *)
Inductive script_outcome :=
| Exit (code : Z)
| Generated (o : outcome).

Definition main {U : UnicodeData} (content : str) : script_outcome :=
  match search PALETTE_RE content with
  | None => Exit 1
  | Some m =>
      Generated (generate (read_existing_profiles content)
                          (read_materials (group 1 m)))
  end.

(** *** Notions used to state the properties of the reading *)

(** What a pattern matches: [lang r m gs] says that [r] matches exactly
    the text [m], its groups capturing the texts [gs]. *)
Fixpoint lang (r : regex) (m : str) (gs : list str) : Prop :=
  match r with
  | Lit l => m = lit l /\ gs = []
  | One cs => exists c, m = [c] /\ in_charset cs c = true /\ gs = []
  | Star cs _ => Forall (fun c => in_charset cs c = true) m /\ gs = []
  | Cat r1 r2 =>
      exists m1 m2 g1 g2,
        m = m1 ++ m2 /\ gs = g1 ++ g2 /\ lang r1 m1 g1 /\ lang r2 m2 g2
  | Group r0 => exists g0, lang r0 m g0 /\ gs = g0 ++ [m]
  end.

(** The first occurrence of [p] in [s]: the text before it and the text
    after it. *)
Fixpoint find_first (p s : str) : option (str * str) :=
  match strip_prefix p s with
  | Some rest => Some ([], rest)
  | None =>
      match s with
      | [] => None
      | c :: s' =>
          match find_first p s' with
          | Some (a, b) => Some (c :: a, b)
          | None => None
          end
      end
  end.

(** The text between the first [open] after the first [marker] and the
    first [close] after that. *)
Definition section_after (marker open close : string) (content : str)
    : option str :=
  match find_first (lit marker) content with
  | None => None
  | Some (_, s1) =>
      match find_first (lit open) s1 with
      | None => None
      | Some (_, s2) =>
          match find_first (lit close) s2 with
          | None => None
          | Some (g, _) => Some g
          end
      end
  end.

Definition spaces (ws : str) : Prop := Forall (fun c => is_space c = true) ws.

(** The text holds an object with the four fields in the order id, name,
    description, keywords, [kw] being the text between the brackets. *)
Definition occurs_as_material (text mat_id mat_name desc kw : str) : Prop :=
  exists pre ws1 ws2 x1 ws3 x2 ws4 x3 ws5 post,
    spaces ws1 /\ spaces ws2 /\ spaces ws3 /\ spaces ws4 /\ spaces ws5 /\
    text =
      pre ++ lit "{" ++ ws1 ++ lit "id:" ++ ws2 ++
      lit "'" ++ mat_id ++ lit "'" ++
      x1 ++ lit "name:" ++ ws3 ++ lit "'" ++ mat_name ++ lit "'" ++
      x2 ++ lit "description:" ++ ws4 ++ lit "'" ++ desc ++ lit "'" ++
      x3 ++ lit "keywords:" ++ ws5 ++ lit "[" ++ kw ++ lit "]" ++ post.

(** The text holds ['pid':], white space and an opening brace, after the
    name of the profile table. *)
Definition occurs_as_profile (content pid : str) : Prop :=
  exists pre mid ws post,
    spaces ws /\
    content =
      pre ++ lit "MATERIAL_LIFECYCLE_PROFILES" ++ mid ++
      lit "'" ++ pid ++ lit "':" ++ ws ++ lit "{" ++ post.

(** A palette with one material, as constants.ts writes it. *)
Definition sample_palette : str :=
  lit "{ id: 'oak', name: 'Oak', description: 'boards', keywords: ['wood'] }".

Definition sample_material : material := {|
  id := lit "oak";
  name := lit "Oak";
  description := lit "boards";
  keywords := [lit "wood"]
|}.

(** [p] occurs in [x] followed by [p] only at the end. *)
Definition first_at_end (p : string) (x : str) : Prop :=
  find_first (lit p) (x ++ lit p) = Some (x, []).

(** [palette_text text materials]: the text lists the materials, each
    written as an object whose fields id, name, description and keywords
    come in this order; what stands between the objects holds no opening
    brace, and what stands between the fields does not hold the name of
    the next field. *)
Inductive palette_text : str -> list material -> Prop :=
| palette_end (tail : str) :
    ~ In 123%N tail -> palette_text tail []
| palette_object (gap ws1 ws2 mat_id x1 ws3 mat_name x2 ws4 desc x3 ws5 kw
                    rest : str) (materials : list material) :
    ~ In 123%N gap ->
    spaces ws1 -> spaces ws2 -> spaces ws3 -> spaces ws4 -> spaces ws5 ->
    mat_id <> [] -> ~ In 39%N mat_id ->
    ~ In 39%N mat_name -> ~ In 39%N desc -> ~ In 93%N kw ->
    first_at_end "name:" x1 ->
    first_at_end "description:" x2 ->
    first_at_end "keywords:" x3 ->
    palette_text rest materials ->
    palette_text
      (gap ++ lit "{" ++ ws1 ++ lit "id:" ++ ws2 ++
       lit "'" ++ mat_id ++ lit "'" ++
       x1 ++ lit "name:" ++ ws3 ++ lit "'" ++ mat_name ++ lit "'" ++
       x2 ++ lit "description:" ++ ws4 ++ lit "'" ++ desc ++ lit "'" ++
       x3 ++ lit "keywords:" ++ ws5 ++ lit "[" ++ kw ++ lit "]" ++ rest)
      ({| id := mat_id; name := mat_name; description := desc;
          keywords := parse_keywords kw |} :: materials).

(** The text inserted into constants.ts: the new records joined by a
    comma and two line breaks. *)
Definition new_profiles_text (new_profiles : list str) : str :=
  join (lit "," ++ nl ++ nl) new_profiles.

(** *** The profile id pattern on the pieces between single quotes *)

(** [t] opens a profile: a colon, white space and an opening brace. *)
Definition opens (t : str) : bool :=
  match t with
  | [] => false
  | c :: t1 => (c =? 58)%N && starts_in (N.eqb 123) (lstrip_with is_space t1)
  end.

(** What follows the opening brace. *)
Definition after_open (t : str) : str := tl (lstrip_with is_space (tl t)).

(** The ids among the pieces that follow single quotes: a non-empty piece
    is an id when the next piece opens a profile; the search goes on after
    that piece. *)
Fixpoint scan_pieces (pieces : list str) : list str :=
  match pieces with
  | [] => []
  | h :: rest =>
      match rest with
      | [] => []
      | t :: more =>
          if negb (str_eqb h []) && opens t then h :: scan_pieces more
          else scan_pieces rest
      end
  end.

(** An id the scanner can find again: not empty, no single quote, and not
    itself of the form colon, white space, brace. *)
Definition findable_id (i : str) : Prop :=
  i <> [] /\ ~ In 39%N i /\ opens i = false.

(** The body of a rendered record: what follows the quote that closes the
    id.  It does not depend on the id. *)
Definition record_body (profile : dict rating) : result str :=
  text <- format_profile [] profile ;; Ok (skipn 4 text).

(** A piece that opens no profile, whatever is appended to it. *)
Definition keeps_closed (p : str) : bool :=
  match p with
  | [] => false
  | c :: _ => negb (c =? 58)%N
  end.

(** A body in which the scanner finds the id in front of it and nothing
    else. *)
Definition body_scans (body : str) : bool :=
  match str_split 39 body with
  | b0 :: _ :: rest =>
      opens b0 && forallb (fun p => negb (opens p)) rest &&
      keeps_closed (last rest [])
  | _ => false
  end.

(** [t] is an end of [s]. *)
Definition is_suffix (t s : str) : Prop := exists x, s = x ++ t.

(** ** Facts about the runtime fragment *)

Section StringFacts.

Lemma starts_with_spec (p t : str) :
  starts_with p t = true <-> exists s, t = p ++ s.
Proof.
  revert t; induction p as [|a p IH]; intros t; simpl.
  - split; [intros _; now exists t | reflexivity].
  - destruct t as [|b t].
    + split; [discriminate | intros [s Hs]; discriminate].
    + rewrite andb_true_iff, N.eqb_eq, IH. split.
      * intros [-> [s ->]]. now exists s.
      * intros [s Hs]. injection Hs as -> ->. split; [reflexivity | now exists s].
Qed.

Lemma contains_spec (p t : str) :
  contains p t = true <-> exists a b, t = a ++ p ++ b.
Proof.
  induction t as [|c t IH]; simpl.
  - rewrite orb_false_r, starts_with_spec. split.
    + intros [s Hs]. now exists [], s.
    + intros [a [b Hab]]. destruct a; [now exists b | discriminate].
  - rewrite orb_true_iff, starts_with_spec, IH. split.
    + intros [[s Hs] | [a [b Hab]]].
      * now exists [], s.
      * exists (c :: a), b. now rewrite Hab.
    + intros [a [b Hab]]. destruct a as [|x a].
      * left. now exists b.
      * right. injection Hab as _ ->. now exists a, b.
Qed.

Lemma contains_trans (p q t : str) :
  contains p q = true -> contains q t = true -> contains p t = true.
Proof.
  rewrite !contains_spec. intros [a [b ->]] [a' [b' ->]].
  exists (a' ++ a), (b ++ b'). now rewrite <- !app_assoc.
Qed.

Lemma starts_with_app_sep (sep : N) (p a b : str) :
  ~ In sep p -> starts_with p (a ++ sep :: b) = starts_with p a.
Proof.
  revert a; induction p as [|x p IH]; intros a Hsep; [reflexivity|].
  destruct a as [|c a]; simpl.
  - destruct (N.eqb_spec x sep) as [->|]; [|reflexivity].
    exfalso. apply Hsep. now left.
  - f_equal. apply IH. intros H. apply Hsep. now right.
Qed.

(** A text that does not contain the separator occurs in [a sep b] exactly
    when it occurs in [a] or in [b]. *)
Lemma contains_app_sep (sep : N) (p a b : str) :
  p <> [] -> ~ In sep p ->
  contains p (a ++ sep :: b) = contains p a || contains p b.
Proof.
  intros Hne Hsep. induction a as [|c a IH].
  - pose proof (starts_with_app_sep sep p [] b Hsep) as H.
    destruct p as [|x p]; [congruence|]. simpl in *. now rewrite H.
  - pose proof (starts_with_app_sep sep p (c :: a) b Hsep) as H.
    change ((c :: a) ++ sep :: b) with (c :: (a ++ sep :: b)) in *.
    cbn [contains]. now rewrite IH, H, orb_assoc.
Qed.

Lemma existsb_Permutation {A : Type} (f : A -> bool) (l l' : list A) :
  Permutation l l' -> existsb f l = existsb f l'.
Proof.
  induction 1 as [| x l l' _ IH | x y l | l l' l'' _ IH1 _ IH2]; simpl.
  - reflexivity.
  - now rewrite IH.
  - now rewrite !orb_assoc, (orb_comm (f y)).
  - now rewrite IH1.
Qed.

Lemma existsb_agree {A : Type} (f g : A -> bool) (l : list A) :
  (forall a, In a l -> f a = g a) -> existsb f l = existsb g l.
Proof.
  induction l as [|x l IH]; intros H; [reflexivity|].
  cbn [existsb]. rewrite (H x) by now left.
  f_equal. apply IH. intros a Ha. apply H. now right.
Qed.

Lemma str_eqb_eq (a b : str) : str_eqb a b = true <-> a = b.
Proof.
  revert b; induction a as [|x a IH]; intros [|y b]; simpl;
    try (split; [discriminate | congruence || discriminate]).
  - split; reflexivity.
  - rewrite andb_true_iff, N.eqb_eq, IH. split.
    + now intros [-> ->].
    + intros H. now injection H.
Qed.

Lemma strip_prefix_app (p s : str) : strip_prefix p (p ++ s) = Some s.
Proof.
  induction p as [|a p IH]; simpl; [reflexivity|].
  now rewrite N.eqb_refl.
Qed.

Lemma plain_not_nil (p : str) : plain p = true -> p <> [].
Proof. destruct p; [discriminate | discriminate]. Qed.

Lemma plain_forall (p : str) :
  plain p = true -> forall c, In c p -> plain_char c = true.
Proof.
  intros H. apply forallb_forall. destruct p; [discriminate | exact H].
Qed.

Lemma plain_no_space (p : str) : plain p = true -> ~ In 32%N p.
Proof.
  intros H Hin. now apply (plain_forall p H) in Hin.
Qed.

End StringFacts.

(** ** Lowercasing and the patterns *)

Section LowerFacts.
Context {U : UnicodeData}.

Lemma lower0_app (a b : str) : lower0 (a ++ b) = lower0 a ++ lower0 b.
Proof. apply flat_map_app. Qed.

Lemma lower0_space (b : str) : lower0 (lit " " ++ b) = 32%N :: lower0 b.
Proof. reflexivity. Qed.

Lemma fold_sigma_sigma (before after : str) :
  fold_sigma (handle_capital_sigma before after) = 0x3C3%N.
Proof.
  unfold handle_capital_sigma.
  now destruct (_ && _).
Qed.

(** [lower] and [lower0] agree up to the choice of the small sigma. *)
Lemma do_lower_fold_sigma (before s : str) :
  map fold_sigma (do_lower before s) = map fold_sigma (lower0 s).
Proof.
  revert before; induction s as [|c s IH]; intros before; [reflexivity|].
  cbn [do_lower]. unfold lower0. cbn [flat_map]. fold (lower0 s).
  rewrite !map_app, IH. f_equal.
  unfold lower_cp. destruct (c =? 0x3A3)%N; [|reflexivity].
  cbn [map]. now rewrite fold_sigma_sigma.
Qed.

Lemma plain_char_fold_sigma (x c : N) :
  plain_char x = true -> (x =? fold_sigma c)%N = (x =? c)%N.
Proof.
  unfold plain_char, fold_sigma. intros Hx.
  destruct (N.eqb_spec c 0x3C2) as [->|]; [|reflexivity].
  destruct (N.eqb_spec x 0x3C3) as [E|], (N.eqb_spec x 0x3C2) as [E'|];
    try reflexivity; [rewrite E in Hx | rewrite E' in Hx]; discriminate.
Qed.

Lemma starts_with_fold_sigma (p t : str) :
  (forall c, In c p -> plain_char c = true) ->
  starts_with p (map fold_sigma t) = starts_with p t.
Proof.
  revert t; induction p as [|x p IH]; intros t Hp; [reflexivity|].
  destruct t as [|c t]; [reflexivity|]. cbn [map starts_with].
  rewrite plain_char_fold_sigma by (apply Hp; now left).
  f_equal. apply IH. intros c' Hc'. apply Hp. now right.
Qed.

Lemma contains_fold_sigma (p t : str) :
  (forall c, In c p -> plain_char c = true) ->
  contains p (map fold_sigma t) = contains p t.
Proof.
  intros Hp. induction t as [|c t IH].
  - reflexivity.
  - pose proof (starts_with_fold_sigma p (c :: t) Hp) as H.
    cbn [map contains] in *. now rewrite H, IH.
Qed.

(** A plain pattern branch cannot tell [lower] from [lower0]. *)
Lemma contains_lower (p s : str) :
  plain p = true -> contains p (lower s) = contains p (lower0 s).
Proof.
  intros Hp. pose proof (plain_forall p Hp) as Hc.
  rewrite <- (contains_fold_sigma p (lower s) Hc).
  rewrite <- (contains_fold_sigma p (lower0 s) Hc).
  unfold lower. now rewrite do_lower_fold_sigma.
Qed.

Lemma contains_lower0_join (p : str) (keywords : list str) :
  plain p = true ->
  contains p (lower0 (join (lit " ") keywords)) =
  existsb (fun kw => contains p (lower0 kw)) keywords.
Proof.
  intros Hp. induction keywords as [|x rest IH].
  - destruct p; [discriminate | reflexivity].
  - destruct rest as [|y rest].
    + cbn [join existsb]. now rewrite orb_false_r.
    + change (join (lit " ") (x :: y :: rest))
        with (x ++ lit " " ++ join (lit " ") (y :: rest)).
      rewrite lower0_app, lower0_space.
      rewrite contains_app_sep
        by (auto using plain_not_nil, plain_no_space).
      now rewrite IH.
Qed.

(** Where a plain pattern branch can occur in the text of a material: in
    the name, in the description or in one of the keywords. *)
Lemma contains_material_text (p name desc : str) (keywords : list str) :
  plain p = true ->
  contains p (material_text name desc keywords) =
  contains p (lower0 name) || contains p (lower0 desc) ||
  existsb (fun kw => contains p (lower0 kw)) keywords.
Proof.
  intros Hp. unfold material_text. rewrite contains_lower by assumption.
  rewrite lower0_app, lower0_space, lower0_app, lower0_space.
  rewrite !contains_app_sep by (auto using plain_not_nil, plain_no_space).
  now rewrite contains_lower0_join, orb_assoc.
Qed.

(** Changing the case of ASCII letters does not change the lowercase
    form. *)
Lemma lower_cp_swapcase (c : N) : lower_cp (ascii_swapcase c) = lower_cp c.
Proof.
  unfold ascii_swapcase.
  destruct (N.leb_spec 65 c), (N.leb_spec c 90); cbn [andb];
    [| destruct (N.leb_spec 97 c), (N.leb_spec c 122); cbn [andb] ..];
    try reflexivity;
    unfold lower_cp, to_lower_full, is_ascii;
    repeat match goal with
    | |- context [N.eqb ?a ?b] => destruct (N.eqb_spec a b); try lia
    | |- context [N.ltb ?a ?b] => destruct (N.ltb_spec a b); try lia
    | |- context [N.leb ?a ?b] => destruct (N.leb_spec a b); try lia
    | |- _ => progress cbn [andb]
    end; try reflexivity; f_equal; lia.
Qed.

Lemma lower0_case_variant (s s' : str) :
  ascii_case_variant s s' -> lower0 s = lower0 s'.
Proof.
  induction 1 as [| c c' s s' [-> | ->] _ IH]; [reflexivity | |];
    unfold lower0; cbn [flat_map]; fold (lower0 s) (lower0 s');
    now rewrite IH, ?lower_cp_swapcase.
Qed.

End LowerFacts.

(** ** The classifier as a rule list *)

Section ClassifierFacts.
Context {U : UnicodeData}.

(** The cascade of [if re.search(...)] is the first-match evaluation of
    [RULES] with the default [DEFAULT]. *)
Lemma classify_material_rules (name desc : str) (keywords : list str) :
  classify_material name desc keywords =
  first_match RULES (material_text name desc keywords) (lit DEFAULT).
Proof.
  unfold classify_material, RULES, DEFAULT.
  cbn [first_match pattern category fst snd]. reflexivity.
Qed.

Lemma first_match_unmatched rules text default :
  (forall r, In r rules -> re_search (pattern r) text = false) ->
  first_match rules text default = default.
Proof.
  induction rules as [|r rules IH]; intros H; [reflexivity|].
  cbn [first_match]. rewrite (H r) by now left.
  apply IH. intros r' Hr'. apply H. now right.
Qed.

(** The result is the category of the first rule that matches. *)
Lemma first_match_first rules text default i r :
  nth_error rules i = Some r ->
  re_search (pattern r) text = true ->
  (forall i' r', i' < i -> nth_error rules i' = Some r' ->
                 re_search (pattern r') text = false) ->
  first_match rules text default = category r.
Proof.
  revert i; induction rules as [|r0 rules IH]; intros i Hi Hm Hbefore.
  - destruct i; discriminate.
  - destruct i as [|i]; cbn [first_match nth_error] in *.
    + injection Hi as ->. now rewrite Hm.
    + rewrite (Hbefore 0 r0) by (reflexivity || lia).
      apply (IH i); [assumption | assumption |].
      intros i' r' Hlt Hr'. apply (Hbefore (S i') r'); [lia | exact Hr'].
Qed.

(** If the rule at position [j] matches, the result is the category of a
    matching rule at a position [i <= j] before which no rule matches. *)
Lemma first_match_earliest rules text default j rj :
  nth_error rules j = Some rj ->
  re_search (pattern rj) text = true ->
  exists i ri,
    i <= j /\ nth_error rules i = Some ri /\
    re_search (pattern ri) text = true /\
    (forall i' r', i' < i -> nth_error rules i' = Some r' ->
                   re_search (pattern r') text = false) /\
    first_match rules text default = category ri.
Proof.
  revert j; induction rules as [|r0 rules IH]; intros j Hj Hm.
  - destruct j; discriminate.
  - cbn [first_match]. destruct (re_search (pattern r0) text) eqn:E0.
    + exists 0, r0. repeat split; try (reflexivity || assumption || lia).
    + destruct j as [|j]; cbn [nth_error] in Hj.
      * injection Hj as ->. congruence.
      * destruct (IH j Hj Hm) as (i & ri & Hle & Hi & Hmi & Hbefore & Heq).
        exists (S i), ri. repeat split; try (assumption || lia).
        intros [|i'] r' Hlt Hr'; cbn [nth_error] in Hr'.
        -- injection Hr' as <-. exact E0.
        -- apply (Hbefore i' r'); [lia | exact Hr'].
Qed.

Lemma first_match_in rules text default :
  In (first_match rules text default) (map category rules ++ [default]).
Proof.
  induction rules as [|r rules IH]; cbn [first_match map app].
  - now left.
  - destruct (re_search (pattern r) text); [now left | now right].
Qed.

Lemma classify_material_in_CATEGORIES (name desc : str) (keywords : list str) :
  In (classify_material name desc keywords) CATEGORIES.
Proof. rewrite classify_material_rules. apply first_match_in. Qed.

End ClassifierFacts.

Lemma RULES_categories_distinct : NoDup (map category RULES).
Proof.
  vm_compute.
  repeat (constructor;
          [intros H; cbn [In] in H; repeat destruct H as [H|H];
           discriminate || contradiction|]).
  constructor.
Qed.

Lemma RULES_distinct_positions i j ri rj :
  i < j -> nth_error RULES i = Some ri -> nth_error RULES j = Some rj ->
  category ri <> category rj.
Proof.
  intros Hlt Hi Hj Heq.
  pose proof (proj1 (NoDup_nth_error (map category RULES))
                RULES_categories_distinct i j) as H.
  assert (i = j); [|lia].
  apply H.
  - rewrite length_map. apply nth_error_Some. congruence.
  - rewrite !nth_error_map, Hi, Hj. cbn [option_map]. now rewrite Heq.
Qed.

(** Every alternative of every rule is a plain branch. *)
Lemma RULES_plain r a :
  In r RULES -> In a (alternatives (pattern r)) -> plain (lit a) = true.
Proof.
  assert (H : forallb (fun r => forallb (fun a => plain (lit a))
                                  (alternatives (pattern r))) RULES = true)
    by (vm_compute; reflexivity).
  rewrite forallb_forall in H. intros Hr Ha.
  specialize (H r Hr). rewrite forallb_forall in H. now apply H.
Qed.

(** Two texts in which the same plain branches occur are classified
    alike. *)
Lemma first_match_RULES_ext (text text' default : str) :
  (forall p, plain p = true -> contains p text = contains p text') ->
  first_match RULES text default = first_match RULES text' default.
Proof.
  intros H.
  assert (Hr : forall r, In r RULES ->
                 re_search (pattern r) text = re_search (pattern r) text').
  { intros r Hr. unfold re_search.
    apply existsb_agree. intros a Ha. apply H. now apply (RULES_plain r). }
  revert Hr. generalize RULES as rules.
  induction rules as [|r rules IH]; intros Hr; [reflexivity|].
  cbn [first_match]. rewrite (Hr r) by now left.
  destruct (re_search (pattern r) text'); [reflexivity|].
  apply IH. intros r' Hr'. apply Hr. now right.
Qed.

(** ** Rendering a profile and reading it back *)

Lemma split_lines_cons (s : str) : exists l ls, split_lines s = l :: ls.
Proof.
  induction s as [|c s [l [ls IH]]]; cbn [split_lines]; [now eauto|].
  destruct (c =? 10)%N; [now eauto|]. rewrite IH. now eauto.
Qed.

Lemma split_lines_app (l rest : str) :
  ~ In 10%N l -> split_lines (l ++ 10%N :: rest) = l :: split_lines rest.
Proof.
  induction l as [|c l IH]; intros Hl.
  - reflexivity.
  - change ((c :: l) ++ 10%N :: rest) with (c :: (l ++ 10%N :: rest)).
    cbn [split_lines].
    destruct (N.eqb_spec c 10) as [->|_]; [exfalso; apply Hl; now left|].
    rewrite IH; [reflexivity|]. intros H. apply Hl. now right.
Qed.

Lemma split_lines_one (l : str) : ~ In 10%N l -> split_lines l = [l].
Proof.
  induction l as [|c l IH]; intros Hl; [reflexivity|].
  cbn [split_lines].
  destruct (N.eqb_spec c 10) as [->|_]; [exfalso; apply Hl; now left|].
  rewrite IH; [reflexivity|]. intros H. apply Hl. now right.
Qed.

(** Joining lines with newlines and splitting again gives the lines
    back. *)
Lemma split_lines_join (ls : list str) :
  ls <> [] -> Forall (fun l => ~ In 10%N l) ls ->
  split_lines (join nl ls) = ls.
Proof.
  induction ls as [|l ls IH]; intros Hne Hls; [congruence|].
  inversion Hls as [|? ? Hl Hrest]; subst.
  destruct ls as [|l' ls].
  - cbn [join]. now apply split_lines_one.
  - change (join nl (l :: l' :: ls)) with (l ++ 10%N :: join nl (l' :: ls)).
    rewrite split_lines_app by assumption.
    f_equal. apply IH; [discriminate | assumption].
Qed.

Lemma valid_ratingb_spec (r : rating) :
  valid_ratingb r = true <-> valid_rating r.
Proof.
  unfold valid_ratingb, valid_rating.
  rewrite !andb_true_iff, !Z.leb_le. unfold mem.
  rewrite existsb_exists. split.
  - intros [Hi [c [Hc Heq]]]. apply str_eqb_eq in Heq. now subst.
  - intros [Hi Hc]. split; [assumption|].
    exists (confidence r). split; [assumption | now apply str_eqb_eq].
Qed.

(** The ratings within the scale are the fifteen pairs of an impact from 1
    to 5 and a confidence label. *)
Lemma valid_rating_cases (r : rating) :
  valid_rating r ->
  In r (map (fun ic => rate (fst ic) (snd ic))
          (list_prod [1; 2; 3; 4; 5]%Z ["high"; "medium"; "low"]%string)).
Proof.
  destruct r as [i c]. unfold valid_rating. cbn [impact confidence].
  intros [Hi Hc].
  assert (Hi' : In i [1; 2; 3; 4; 5]%Z) by (cbn [In]; lia).
  cbn [In CONFIDENCES map] in Hi', Hc.
  repeat destruct Hi' as [<- | Hi']; try contradiction;
    repeat destruct Hc as [<- | Hc]; try contradiction;
    vm_compute; tauto.
Qed.

(** A rendered phase line has no line break and reads back as the phase
    and the rating it was rendered from. *)
Lemma read_phase_line_render (phase : string) (r : rating) (comma : bool) :
  In phase PHASE_NAMES -> valid_rating r ->
  ~ In 10%N (phase_line phase r comma) /\
  read_phase_line (phase_line phase r comma) = Some (lit phase, r).
Proof.
  intros Hp Hr. apply valid_rating_cases in Hr.
  assert (forallb (fun x => negb (x =? 10)%N) (phase_line phase r comma) = true
          /\ read_phase_line (phase_line phase r comma) = Some (lit phase, r))
    as [H1 H2].
  { cbn [PHASE_NAMES In] in Hp. cbn [list_prod map In app fst snd] in Hr.
    repeat destruct Hp as [<- | Hp]; try contradiction;
      repeat destruct Hr as [<- | Hr]; try contradiction;
      destruct comma; vm_compute; split; reflexivity. }
  split; [|exact H2].
  intros Hin. rewrite forallb_forall in H1. now apply H1 in Hin.
Qed.

(** The text [format_profile] builds, line by line. *)
Lemma format_profile_lines (mat_id : str) (profile : dict rating)
    (raw manufacturing transport installation inUse maintenance endOfLife
       : rating) :
  getitem profile (lit "raw") = Ok raw ->
  getitem profile (lit "manufacturing") = Ok manufacturing ->
  getitem profile (lit "transport") = Ok transport ->
  getitem profile (lit "installation") = Ok installation ->
  getitem profile (lit "inUse") = Ok inUse ->
  getitem profile (lit "maintenance") = Ok maintenance ->
  getitem profile (lit "endOfLife") = Ok endOfLife ->
  format_profile mat_id profile =
  Ok (header mat_id ++
      join nl [phase_line "raw" raw true;
               phase_line "manufacturing" manufacturing true;
               phase_line "transport" transport true;
               phase_line "installation" installation true;
               phase_line "inUse" inUse true;
               phase_line "maintenance" maintenance true;
               phase_line "endOfLife" endOfLife false;
               lit "  }"]).
Proof.
  intros H1 H2 H3 H4 H5 H6 H7. unfold format_profile.
  rewrite H1, H2, H3, H4, H5, H6, H7. cbn [bind]. f_equal.
  unfold header, phase_line. cbn [join].
  rewrite <- !app_assoc. reflexivity.
Qed.

(** Round trip: the record rendered from a profile that rates the seven
    phases within the scale reads back as these seven ratings, in the order
    of [PHASES]. *)
Lemma format_profile_roundtrip (mat_id : str) (profile : dict rating) :
  complete_profile profile = true ->
  exists text ratings,
    format_profile mat_id profile = Ok text /\
    read_record mat_id text = Some ratings /\
    map fst ratings = PHASES /\
    Forall (fun pr => getitem profile (fst pr) = Ok (snd pr) /\
                      valid_rating (snd pr)) ratings.
Proof.
  unfold complete_profile. rewrite forallb_forall. intros Hc.
  assert (Hphase : forall ph, In ph PHASE_NAMES ->
            exists r, getitem profile (lit ph) = Ok r /\ valid_rating r).
  { intros ph Hph. specialize (Hc (lit ph) (in_map lit _ _ Hph)).
    destruct (getitem profile (lit ph)) as [r|]; [|discriminate].
    exists r. split; [reflexivity | now apply valid_ratingb_spec]. }
  destruct (Hphase "raw"%string) as (r1 & G1 & V1); [cbn; tauto|].
  destruct (Hphase "manufacturing"%string) as (r2 & G2 & V2); [cbn; tauto|].
  destruct (Hphase "transport"%string) as (r3 & G3 & V3); [cbn; tauto|].
  destruct (Hphase "installation"%string) as (r4 & G4 & V4); [cbn; tauto|].
  destruct (Hphase "inUse"%string) as (r5 & G5 & V5); [cbn; tauto|].
  destruct (Hphase "maintenance"%string) as (r6 & G6 & V6); [cbn; tauto|].
  destruct (Hphase "endOfLife"%string) as (r7 & G7 & V7); [cbn; tauto|].
  pose proof (fun ph r c H => read_phase_line_render ph r c H) as L.
  destruct (L "raw"%string r1 true) as [N1 R1]; [cbn; tauto | assumption|].
  destruct (L "manufacturing"%string r2 true) as [N2 R2];
    [cbn; tauto | assumption|].
  destruct (L "transport"%string r3 true) as [N3 R3];
    [cbn; tauto | assumption|].
  destruct (L "installation"%string r4 true) as [N4 R4];
    [cbn; tauto | assumption|].
  destruct (L "inUse"%string r5 true) as [N5 R5]; [cbn; tauto | assumption|].
  destruct (L "maintenance"%string r6 true) as [N6 R6];
    [cbn; tauto | assumption|].
  destruct (L "endOfLife"%string r7 false) as [N7 R7];
    [cbn; tauto | assumption|].
  eexists. exists [(lit "raw", r1); (lit "manufacturing", r2);
                   (lit "transport", r3); (lit "installation", r4);
                   (lit "inUse", r5); (lit "maintenance", r6);
                   (lit "endOfLife", r7)].
  split;
    [apply (format_profile_lines mat_id profile r1 r2 r3 r4 r5 r6 r7);
     assumption|].
  split; [|split].
  - unfold read_record. rewrite strip_prefix_app.
    rewrite split_lines_join.
    + cbn [read_phases]. rewrite R1, R2, R3, R4, R5, R6, R7. reflexivity.
    + discriminate.
    + repeat (constructor; [assumption|]).
      constructor; [|constructor]. cbn. intuition discriminate.
  - reflexivity.
  - repeat (constructor; [cbn [fst snd]; now split|]). constructor.
Qed.

(** ** The profile table and the generation loop *)

Lemma PROFILES_keys_distinct : NoDup (keys PROFILES).
Proof.
  vm_compute.
  repeat (constructor;
          [intros H; cbn [In] in H; repeat destruct H as [H|H];
           discriminate || contradiction|]).
  constructor.
Qed.

(** Every category of the classifier has one entry in the table, and that
    entry rates the seven phases within the scale. *)
Lemma PROFILES_covers_CATEGORIES (c : str) :
  In c CATEGORIES ->
  count_key c PROFILES = 1 /\
  exists profile,
    getitem PROFILES c = Ok profile /\ complete_profile profile = true.
Proof.
  intros Hc.
  assert (H : forallb (fun c =>
                (count_key c PROFILES =? 1) &&
                match getitem PROFILES c with
                | Ok profile => complete_profile profile
                | Raise _ => false
                end) CATEGORIES = true) by (vm_compute; reflexivity).
  rewrite forallb_forall in H. specialize (H c Hc).
  apply andb_true_iff in H as [H1 H2]. apply Nat.eqb_eq in H1.
  split; [exact H1|].
  destruct (getitem PROFILES c) as [profile|]; [|discriminate].
  now exists profile.
Qed.

Lemma PROFILES_entries_complete (c : str) (profile : dict rating) :
  In (c, profile) PROFILES -> complete_profile profile = true.
Proof.
  assert (H : forallb (fun kv => complete_profile (snd kv)) PROFILES = true)
    by (vm_compute; reflexivity).
  rewrite forallb_forall in H. intros Hin. exact (H _ Hin).
Qed.

Lemma getitem_absent {V : Type} (d : dict V) (k : str) :
  ~ In k (keys d) -> getitem d k = Raise (KeyError k).
Proof.
  induction d as [|[k' v] d IH]; intros Hk; [reflexivity|].
  cbn [getitem]. rewrite IH by (intros H; apply Hk; now right).
  destruct (str_eqb k' k) eqn:E; [|reflexivity].
  apply str_eqb_eq in E. exfalso. apply Hk. now left.
Qed.

Section LoopFacts.
Context {U : UnicodeData}.

Lemma generate_from_app profiles existing before rest acc :
  generate_from profiles existing (before ++ rest) acc =
  match generate_from profiles existing before acc with
  | Completed acc' => generate_from profiles existing rest acc'
  | Uncaught e acc' => Uncaught e acc'
  end.
Proof.
  revert acc; induction before as [|mat before IH]; intros acc;
    [reflexivity|].
  cbn [app generate_from].
  destruct (negb (mem (id mat) existing)); [|apply IH].
  destruct (getitem profiles _) as [profile|e]; [|reflexivity].
  destruct (format_profile (id mat) profile) as [text|e]; [|reflexivity].
  apply IH.
Qed.

(** With the table of the script, the record of every material exists. *)
Lemma record_of_PROFILES (mat : material) :
  exists text, record_of PROFILES mat text.
Proof.
  destruct (PROFILES_covers_CATEGORIES
              (classify_material (name mat) (description mat) (keywords mat))
              (classify_material_in_CATEGORIES _ _ _))
    as [_ (profile & Hget & Hcomplete)].
  destruct (format_profile_roundtrip (id mat) profile Hcomplete)
    as (text & _ & Hfmt & _).
  exists text, profile. split; assumption.
Qed.

(** A run that meets no missing entry completes with the records of the
    pending materials, in their order. *)
Lemma generate_from_PROFILES existing materials acc :
  exists records,
    generate_from PROFILES existing materials acc = Completed (acc ++ records)
    /\ Forall2 (record_of PROFILES) (pending existing materials) records.
Proof.
  revert acc; induction materials as [|mat materials IH]; intros acc.
  - exists []. split; [now rewrite app_nil_r | constructor].
  - cbn [generate_from pending filter].
    destruct (negb (mem (id mat) existing)).
    + destruct (record_of_PROFILES mat) as (text & profile & Hget & Hfmt).
      rewrite Hget, Hfmt.
      destruct (IH (acc ++ [text])) as (records & Hrun & Hrec).
      exists (text :: records). split.
      * now rewrite Hrun, <- app_assoc.
      * constructor; [exists profile; split; assumption | exact Hrec].
    + apply IH.
Qed.

End LoopFacts.

(** ** Properties of the classifier *)

Lemma re_search_alternative (U : UnicodeData) (pat a : string) (text : str) :
  In a (alternatives pat) -> contains (lit a) text = true ->
  re_search pat text = true.
Proof.
  intros Ha Hc. unfold re_search. apply existsb_exists. now exists a.
Qed.

(** C1: rule order.  The classifier evaluates its rules in the order
    timber, metal, concrete, glass, ceramic, plastic, biobased, earth, stone,
    textile, paint, and the first rule that matches decides.  When the text
    of a material matches the rules at two positions [i < j], the category
    returned is that of the earliest matching rule, which stands at [i] or
    before; it is never the category of rule [j], and it is the category of
    rule [i] when no rule before [i] matches.  In particular a text that
    contains both "glass" and "steel", no timber keyword matching, is
    classified as metal, and so is the material named "steel-framed glass
    partition". *)
Theorem C1_rule_order_first_match_wins (U : UnicodeData) :
  map snd RULES =
    ["timber"; "metal"; "concrete"; "glass"; "ceramic"; "plastic";
     "biobased"; "earth"; "stone"; "textile"; "paint"]%string /\
  (forall name desc keywords,
     classify_material name desc keywords =
     first_match RULES (material_text name desc keywords) (lit DEFAULT)) /\
  (forall name desc keywords i j ri rj,
     i < j ->
     nth_error RULES i = Some ri -> nth_error RULES j = Some rj ->
     re_search (pattern ri) (material_text name desc keywords) = true ->
     re_search (pattern rj) (material_text name desc keywords) = true ->
     classify_material name desc keywords <> category rj /\
     (exists i0 r0,
        i0 <= i /\ nth_error RULES i0 = Some r0 /\
        re_search (pattern r0) (material_text name desc keywords) = true /\
        (forall i' r', i' < i0 -> nth_error RULES i' = Some r' ->
           re_search (pattern r') (material_text name desc keywords) = false)
        /\ classify_material name desc keywords = category r0) /\
     ((forall i' r', i' < i -> nth_error RULES i' = Some r' ->
         re_search (pattern r') (material_text name desc keywords) = false) ->
      classify_material name desc keywords = category ri)) /\
  (forall name desc keywords,
     contains (lit "glass") (material_text name desc keywords) = true ->
     contains (lit "steel") (material_text name desc keywords) = true ->
     re_search "timber|wood|oak|bamboo|larch|cedar|plywood"
       (material_text name desc keywords) = false ->
     classify_material name desc keywords = lit "metal") /\
  classify_material (lit "steel-framed glass partition")
    (lit "glass panel in a steel frame") [] = lit "metal".
Proof.
  split; [reflexivity|].
  split; [exact classify_material_rules|].
  split; [|split].
  - intros name desc keywords i j ri rj Hlt Hi Hj Hmi Hmj.
    rewrite classify_material_rules.
    destruct (first_match_earliest RULES _ (lit DEFAULT) i ri Hi Hmi)
      as (i0 & r0 & Hle & Hi0 & Hm0 & Hbefore & Heq).
    split; [|split].
    + rewrite Heq. apply (RULES_distinct_positions i0 j); [lia | | ]; assumption.
    + exists i0, r0. repeat split; assumption.
    + intros Hnone. now apply (first_match_first RULES _ _ i).
  - intros name desc keywords Hglass Hsteel Htimber.
    assert (Hmetal : re_search "steel|aluminum|aluminium|metal|brass|copper|zinc"
                       (material_text name desc keywords) = true).
    { apply (re_search_alternative U _ "steel"); [|exact Hsteel].
      vm_compute. tauto. }
    unfold classify_material. cbv zeta. now rewrite Htimber, Hmetal.
  - vm_compute. reflexivity.
Qed.

Lemma C1_witness :
  @classify_material latin (lit "steel-framed glass partition")
    (lit "glass panel in a steel frame") [] = lit "metal".
Proof.
  destruct (C1_rule_order_first_match_wins latin) as (_ & _ & H & _).
  refine (proj2 (proj2
    (H (lit "steel-framed glass partition")
       (lit "glass panel in a steel frame") [] 1 3
       ("steel|aluminum|aluminium|metal|brass|copper|zinc", "metal")%string
       ("glass|glazing", "glass")%string _ _ _ _ _)) _).
  - lia.
  - reflexivity.
  - reflexivity.
  - vm_compute; reflexivity.
  - vm_compute; reflexivity.
  - intros [|i'] r' Hlt Hr'; [|lia].
    injection Hr' as <-. vm_compute; reflexivity.
Defined.

(** C1 as stated fails in its last part: a text that contains both "glass"
    and "steel" is not always classified as metal, since the timber rule
    stands before the metal rule.  The material named "oak-framed glass
    door" and described as "steel handle" holds both words and is classified
    as timber. *)
Lemma C1_counterexample :
  contains (lit "glass")
    (@material_text latin (lit "oak-framed glass door") (lit "steel handle") [])
  = true /\
  contains (lit "steel")
    (@material_text latin (lit "oak-framed glass door") (lit "steel handle") [])
  = true /\
  @classify_material latin (lit "oak-framed glass door") (lit "steel handle") []
  = lit "timber" /\
  @classify_material latin (lit "oak-framed glass door") (lit "steel handle") []
  <> lit "metal".
Proof.
  split; [vm_compute; reflexivity|].
  split; [vm_compute; reflexivity|].
  split; [vm_compute; reflexivity|].
  vm_compute. discriminate.
Qed.

(** C2: every category the classifier can return, that is the category of
    each rule and the default, has exactly one entry in [PROFILES]; on every
    input the category returned is one of these, so the classifier never
    returns a category absent from the table. *)
Theorem C2_classifier_range_has_profiles (U : UnicodeData) :
  Forall (fun c => count_key c PROFILES = 1) CATEGORIES /\
  forall name desc keywords,
    In (classify_material name desc keywords) CATEGORIES /\
    count_key (classify_material name desc keywords) PROFILES = 1 /\
    In (classify_material name desc keywords) (keys PROFILES) /\
    exists profile,
      getitem PROFILES (classify_material name desc keywords) = Ok profile.
Proof.
  split.
  - apply Forall_forall. intros c Hc.
    now destruct (PROFILES_covers_CATEGORIES c Hc).
  - intros name desc keywords.
    pose proof (classify_material_in_CATEGORIES name desc keywords) as Hin.
    destruct (PROFILES_covers_CATEGORIES _ Hin) as [Hcount (profile & Hget & _)].
    repeat split; try assumption.
    + destruct (in_dec (list_eq_dec N.eq_dec)
                  (classify_material name desc keywords) (keys PROFILES))
        as [Hk | Hk]; [exact Hk|].
      rewrite (getitem_absent PROFILES _ Hk) in Hget. discriminate.
    + exists profile. exact Hget.
Qed.

(** C3: for every entry of the profile table, the record that
    [format_profile] renders from the profile reads back as the seven
    phases in the order raw, manufacturing, transport, installation, inUse,
    maintenance, endOfLife; each phase carries the rating the profile gives
    it, unchanged, with an impact from 1 to 5 and a confidence among high,
    medium and low. *)
Theorem C3_record_matches_profile_table
    (c : str) (profile : dict rating) (mat_id : str) :
  In (c, profile) PROFILES ->
  exists text ratings,
    format_profile mat_id profile = Ok text /\
    read_record mat_id text = Some ratings /\
    map fst ratings =
      map lit ["raw"; "manufacturing"; "transport"; "installation"; "inUse";
               "maintenance"; "endOfLife"]%string /\
    Forall (fun pr =>
              getitem profile (fst pr) = Ok (snd pr) /\
              (1 <= impact (snd pr) <= 5)%Z /\
              In (confidence (snd pr)) (map lit ["high"; "medium"; "low"]%string))
           ratings.
Proof.
  intros Hin. apply PROFILES_entries_complete in Hin.
  destruct (format_profile_roundtrip mat_id profile Hin)
    as (text & ratings & Hfmt & Hread & Hphases & Hall).
  exists text, ratings. repeat split; [exact Hfmt | exact Hread | exact Hphases|].
  eapply Forall_impl; [|exact Hall].
  intros [ph r] [Hget Hvalid]. split; [exact Hget | exact Hvalid].
Qed.

Lemma C3_witness :
  exists text ratings,
    format_profile (lit "oak-flooring")
      [(lit "raw", rate 1 "high");
       (lit "manufacturing", rate 2 "high");
       (lit "transport", rate 2 "medium");
       (lit "installation", rate 2 "high");
       (lit "inUse", rate 1 "high");
       (lit "maintenance", rate 2 "medium");
       (lit "endOfLife", rate 1 "high")] = Ok text /\
    read_record (lit "oak-flooring") text = Some ratings /\
    map fst ratings = PHASES.
Proof.
  destruct (C3_record_matches_profile_table (lit "timber") _
              (lit "oak-flooring") (or_introl eq_refl))
    as (text & ratings & Hfmt & Hread & Hphases & _).
  exists text, ratings. repeat split; assumption.
Defined.

(** C4: classification is total: on every input the classifier returns one
    of its categories; when no rule matches the text it returns the default
    category "concrete".  The material named "widget" with an empty
    description and no keyword is classified as "concrete". *)
Theorem C4_unmatched_is_default (U : UnicodeData) :
  (forall name desc keywords,
     In (classify_material name desc keywords) CATEGORIES) /\
  (forall name desc keywords,
     (forall r, In r RULES ->
        re_search (pattern r) (material_text name desc keywords) = false) ->
     classify_material name desc keywords = lit "concrete") /\
  classify_material (lit "widget") [] [] = lit "concrete".
Proof.
  split; [exact classify_material_in_CATEGORIES|]. split.
  - intros name desc keywords Hnone.
    rewrite classify_material_rules. now apply first_match_unmatched.
  - vm_compute. reflexivity.
Qed.

Lemma C4_witness : @classify_material latin (lit "widget") [] [] = lit "concrete".
Proof.
  apply (proj1 (proj2 (C4_unmatched_is_default latin))).
  intros r Hr. cbn [RULES In] in Hr.
  repeat destruct Hr as [<- | Hr]; try contradiction; vm_compute; reflexivity.
Defined.

(** ** Properties of the generation loop *)

(** C5 (as the script behaves): a category with no entry in the profile
    table is a fatal error and is never defaulted: the lookup raises
    [KeyError], which nothing catches, and no record is generated for that
    material.  It is raised at call time: the loop first generates the
    records of the materials before the first pending one whose category
    has no entry, and stops there.  With the table of the script the case
    does not arise: every run completes with the records of the pending
    materials. *)
Theorem C5_missing_profile_is_fatal_at_call_time (U : UnicodeData) :
  (forall profiles existing_profiles before mat rest done,
     generate_from profiles existing_profiles before [] = Completed done ->
     mem (id mat) existing_profiles = false ->
     ~ In (classify_material (name mat) (description mat) (keywords mat))
          (keys profiles) ->
     generate_from profiles existing_profiles (before ++ mat :: rest) [] =
     Uncaught
       (KeyError (classify_material (name mat) (description mat) (keywords mat)))
       done) /\
  (forall existing_profiles materials,
     exists records,
       generate existing_profiles materials = Completed records /\
       Forall2 (record_of PROFILES) (pending existing_profiles materials)
         records).
Proof.
  split.
  - intros profiles existing before mat rest done Hbefore Hpending Habsent.
    rewrite generate_from_app, Hbefore. cbn [generate_from].
    rewrite Hpending. cbn [negb].
    now rewrite (getitem_absent profiles _ Habsent).
  - intros existing materials. unfold generate.
    destruct (generate_from_PROFILES existing materials [])
      as (records & Hrun & Hrec).
    exists records. split; assumption.
Qed.

Lemma C5_witness :
  exists done,
    @generate_from latin PROFILES_without_paint []
      ([oak_flooring] ++ wall_paint :: []) [] =
    Uncaught (KeyError (lit "paint")) done /\ List.length done = 1.
Proof.
  eexists. split.
  - apply (proj1 (C5_missing_profile_is_fatal_at_call_time latin)
             PROFILES_without_paint [] [oak_flooring] wall_paint []).
    + vm_compute. reflexivity.
    + reflexivity.
    + vm_compute. intros H.
      repeat destruct H as [H|H]; discriminate || contradiction.
  - reflexivity.
Defined.

(** C5 as stated fails: a table that lacks the entry of a category is not
    rejected before materials are processed.  Without the entry of paint,
    the run over the oak flooring alone completes, and the run over the oak
    flooring and a paint generates the record of the oak flooring before it
    stops at the paint. *)
Lemma C5_counterexample :
  lacks_profile PROFILES_without_paint /\
  (exists text,
     @generate_from latin PROFILES_without_paint [] [oak_flooring] [] =
     Completed [text]) /\
  (exists text,
     @generate_from latin PROFILES_without_paint []
       [oak_flooring; wall_paint] [] =
     Uncaught (KeyError (lit "paint")) [text]) /\
  ~ @rejected_before_processing latin PROFILES_without_paint.
Proof.
  split; [|split; [|split]].
  - exists (lit "paint"). split.
    + vm_compute. tauto.
    + vm_compute. intros H.
      repeat destruct H as [H|H]; discriminate || contradiction.
  - eexists. vm_compute. reflexivity.
  - eexists. vm_compute. reflexivity.
  - intros H. destruct (H [] [oak_flooring]) as [e He].
    vm_compute in He. discriminate.
Qed.

(** C6: the material named "Oak Flooring", described as "solid oak boards",
    with the keywords "wood" and "flooring", is classified as timber, and the
    record synthesized for it rates the raw phase with impact 1 and
    confidence high. *)
Theorem C6_oak_flooring (U : UnicodeData) :
  classify_material (lit "Oak Flooring") (lit "solid oak boards")
    [lit "wood"; lit "flooring"] = lit "timber" /\
  (forall mat_id,
     exists profile text ratings,
       getitem PROFILES (lit "timber") = Ok profile /\
       format_profile mat_id profile = Ok text /\
       read_record mat_id text = Some ratings /\
       map fst ratings = PHASES /\
       In (lit "raw", rate 1 "high") ratings) /\
  (exists text ratings,
     generate [] [oak_flooring] = Completed [text] /\
     read_record (id oak_flooring) text = Some ratings /\
     map fst ratings = PHASES /\
     In (lit "raw", rate 1 "high") ratings).
Proof.
  split; [vm_compute; reflexivity|]. split.
  - intros mat_id.
    destruct (getitem PROFILES (lit "timber")) as [profile|] eqn:Hget;
      [|discriminate].
    assert (Hin : In (lit "timber", profile) PROFILES).
    { vm_compute in Hget. injection Hget as <-. now left. }
    destruct (format_profile_roundtrip mat_id profile
                (PROFILES_entries_complete _ _ Hin))
      as (text & ratings & Hfmt & Hread & Hphases & Hall).
    exists profile, text, ratings.
    repeat split; [exact Hfmt | exact Hread | exact Hphases|].
    destruct ratings as [|[ph r] ratings]; [discriminate|].
    injection Hphases as Hph _. inversion Hall as [|? ? [Hr _] _]; subst.
    cbn [fst snd] in Hr. left. f_equal.
    vm_compute in Hget. injection Hget as <-.
    vm_compute in Hr. now injection Hr as <-.
  - eexists. eexists. split; [vm_compute; reflexivity|].
    split; [vm_compute; reflexivity|].
    split; [vm_compute; reflexivity|]. now left.
Qed.

(** ** Relational properties of the classifier *)

(** The category depends on the text only. *)
Lemma classify_material_text (U : UnicodeData) name desc keywords
    name' desc' keywords' :
  (forall p, plain p = true ->
     contains p (material_text name desc keywords) =
     contains p (material_text name' desc' keywords')) ->
  classify_material name desc keywords =
  classify_material name' desc' keywords'.
Proof.
  intros H. rewrite !classify_material_rules.
  now apply first_match_RULES_ext.
Qed.

(** On ASCII text lowercasing does not consult the Unicode database. *)
Lemma lower0_ascii (U U' : UnicodeData) (s : str) :
  forallb is_ascii s = true -> @lower0 U s = @lower0 U' s.
Proof.
  induction s as [|c s IH]; [reflexivity|].
  cbn [forallb]. intros H. apply andb_true_iff in H as [Hc Hs].
  unfold lower0. cbn [flat_map]. fold (@lower0 U s) (@lower0 U' s).
  rewrite (IH Hs). f_equal.
  unfold lower_cp, to_lower_full. now rewrite Hc.
Qed.

(** C7: classification is deterministic and free of side effects.  It is a
    function of the name, the description and the keywords: two calls on
    equal inputs return the same category.  Nothing else enters.  In the
    generation loop, whatever the profiles that exist already, the records
    generated so far and the materials around it, the category looked up
    for a material is the one computed from its own three fields, and
    processing the material only appends its record.  On ASCII inputs the
    category does not even depend on the Unicode database of the
    interpreter. *)
Theorem C7_classification_is_a_function_of_its_inputs (U : UnicodeData) :
  (forall name desc keywords name' desc' keywords',
     name = name' -> desc = desc' -> keywords = keywords' ->
     classify_material name desc keywords =
     classify_material name' desc' keywords') /\
  (forall existing_profiles before mat rest done,
     generate_from PROFILES existing_profiles before [] = Completed done ->
     mem (id mat) existing_profiles = false ->
     exists profile text,
       getitem PROFILES
         (classify_material (name mat) (description mat) (keywords mat))
       = Ok profile /\
       format_profile (id mat) profile = Ok text /\
       generate_from PROFILES existing_profiles (before ++ mat :: rest) [] =
       generate_from PROFILES existing_profiles rest (done ++ [text])) /\
  (forall (U' : UnicodeData) name desc keywords,
     forallb is_ascii name = true ->
     forallb is_ascii desc = true ->
     forallb (forallb is_ascii) keywords = true ->
     @classify_material U name desc keywords =
     @classify_material U' name desc keywords).
Proof.
  split; [|split].
  - intros name desc keywords name' desc' keywords' -> -> ->. reflexivity.
  - intros existing before mat rest done Hbefore Hpending.
    destruct (record_of_PROFILES mat) as (text & profile & Hget & Hfmt).
    exists profile, text. split; [exact Hget|]. split; [exact Hfmt|].
    rewrite generate_from_app, Hbefore. cbn [generate_from].
    rewrite Hpending. cbn [negb]. now rewrite Hget, Hfmt.
  - intros U' name desc keywords Hname Hdesc Hkw.
    rewrite (@classify_material_rules U), (@classify_material_rules U').
    apply first_match_RULES_ext. intros p Hp.
    rewrite (@contains_material_text U), (@contains_material_text U')
      by assumption.
    rewrite (lower0_ascii U U' name Hname), (lower0_ascii U U' desc Hdesc).
    f_equal. apply existsb_agree. intros kw Hin.
    rewrite forallb_forall in Hkw. now rewrite (lower0_ascii U U' kw (Hkw kw Hin)).
Qed.

Lemma C7_witness :
  @classify_material latin (name oak_flooring) (description oak_flooring)
    (keywords oak_flooring) =
  @classify_material latin (lit "Oak Flooring") (lit "solid oak boards")
    [lit "wood"; lit "flooring"].
Proof.
  apply (proj1 (C7_classification_is_a_function_of_its_inputs latin));
    reflexivity.
Defined.

(** C8: patterns match inside words.  A material whose text contains
    "carpet" is never classified as textile: "pet", a branch of the plastic
    rule, occurs in "carpet", and the plastic rule (sixth) comes before the
    textile rule (tenth).  When none of the five rules before plastic
    matches, such a material is classified as plastic. *)
Theorem C8_carpet_is_plastic (U : UnicodeData)
    (name desc : str) (keywords : list str) :
  contains (lit "carpet") (material_text name desc keywords) = true ->
  nth_error RULES 5 =
    Some ("plastic|vinyl|upvc|composite|grp|pet|epoxy|resin", "plastic")%string
  /\
  nth_error RULES 9 =
    Some ("fabric|textile|carpet|leather|upholster", "textile")%string /\
  re_search "plastic|vinyl|upvc|composite|grp|pet|epoxy|resin"
    (material_text name desc keywords) = true /\
  classify_material name desc keywords <> lit "textile" /\
  ((forall i r, i < 5 -> nth_error RULES i = Some r ->
      re_search (pattern r) (material_text name desc keywords) = false) ->
   classify_material name desc keywords = lit "plastic").
Proof.
  intros Hcarpet.
  assert (Hpet : re_search "plastic|vinyl|upvc|composite|grp|pet|epoxy|resin"
                   (material_text name desc keywords) = true).
  { apply (re_search_alternative U _ "pet"); [vm_compute; tauto|].
    apply (contains_trans _ (lit "carpet")); [reflexivity | exact Hcarpet]. }
  split; [reflexivity|]. split; [reflexivity|]. split; [exact Hpet|].
  rewrite classify_material_rules. split.
  - destruct (first_match_earliest RULES _ (lit DEFAULT) 5 _ eq_refl Hpet)
      as (i & ri & Hle & Hi & _ & _ & ->).
    assert (Hcases : i = 0 \/ i = 1 \/ i = 2 \/ i = 3 \/ i = 4 \/ i = 5) by lia.
    destruct Hcases as [-> | [-> | [-> | [-> | [-> | ->]]]]];
      injection Hi as <-; discriminate.
  - intros Hnone.
    now apply (first_match_first RULES _ _ 5
                 ("plastic|vinyl|upvc|composite|grp|pet|epoxy|resin",
                  "plastic")%string).
Qed.

Lemma C8_witness :
  @classify_material latin (lit "Carpet") [] [] = lit "plastic".
Proof.
  refine (proj2 (proj2 (proj2 (proj2
    (C8_carpet_is_plastic latin (lit "Carpet") [] [] _)))) _).
  - vm_compute. reflexivity.
  - intros i r Hlt Hr.
    assert (Hcases : i = 0 \/ i = 1 \/ i = 2 \/ i = 3 \/ i = 4) by lia.
    destruct Hcases as [-> | [-> | [-> | [-> | ->]]]];
      injection Hr as <-; vm_compute; reflexivity.
Defined.

(** C9: the order of the keywords does not matter: a permutation of the
    keyword list leaves the category unchanged.  The keywords are joined
    with single spaces and no pattern branch contains a space, so a branch
    occurs in the text exactly when it occurs in the name, in the
    description or in one keyword. *)
Theorem C9_keyword_order_is_irrelevant (U : UnicodeData)
    (name desc : str) (keywords keywords' : list str) :
  Permutation keywords keywords' ->
  classify_material name desc keywords =
  classify_material name desc keywords'.
Proof.
  intros Hperm. apply classify_material_text. intros p Hp.
  rewrite !contains_material_text by assumption.
  f_equal. now apply existsb_Permutation.
Qed.

Lemma C9_witness :
  @classify_material latin (lit "Flooring") (lit "boards")
    [lit "wood"; lit "steel"] =
  @classify_material latin (lit "Flooring") (lit "boards")
    [lit "steel"; lit "wood"].
Proof.
  apply (C9_keyword_order_is_irrelevant latin). apply perm_swap.
Defined.

Lemma contains_lower0_same_lower (U : UnicodeData) (p s s' : str) :
  plain p = true -> lower s = lower s' ->
  contains p (lower0 s) = contains p (lower0 s').
Proof.
  intros Hp Hs. now rewrite <- !contains_lower, Hs by assumption.
Qed.

(** C10 (as the script behaves): classification ignores the case of ASCII
    letters: changing the case of any of the letters A to Z and a to z in
    the name, the description or the keywords leaves the category unchanged,
    since the text is lowercased before the patterns are tested and every
    pattern is made of lowercase ASCII letters and hyphens.  More generally
    the category is the same for inputs whose name, description and keywords
    have the same lowercase forms. *)
Theorem C10_ascii_case_is_irrelevant (U : UnicodeData) :
  (forall name name' desc desc' keywords keywords',
     ascii_case_variant name name' ->
     ascii_case_variant desc desc' ->
     Forall2 ascii_case_variant keywords keywords' ->
     classify_material name desc keywords =
     classify_material name' desc' keywords') /\
  (forall name name' desc desc' keywords keywords',
     lower name = lower name' ->
     lower desc = lower desc' ->
     Forall2 (fun kw kw' => lower kw = lower kw') keywords keywords' ->
     classify_material name desc keywords =
     classify_material name' desc' keywords').
Proof.
  split.
  - intros name name' desc desc' keywords keywords' Hname Hdesc Hkw.
    apply classify_material_text. intros p Hp.
    rewrite !contains_material_text by assumption.
    rewrite (lower0_case_variant name name' Hname).
    rewrite (lower0_case_variant desc desc' Hdesc).
    f_equal. induction Hkw as [|kw kw' kws kws' Hk _ IH]; [reflexivity|].
    cbn [existsb]. now rewrite (lower0_case_variant kw kw' Hk), IH.
  - intros name name' desc desc' keywords keywords' Hname Hdesc Hkw.
    apply classify_material_text. intros p Hp.
    rewrite !contains_material_text by assumption.
    rewrite (contains_lower0_same_lower U p name name' Hp Hname).
    rewrite (contains_lower0_same_lower U p desc desc' Hp Hdesc).
    f_equal. induction Hkw as [|kw kw' kws kws' Hk _ IH]; [reflexivity|].
    cbn [existsb].
    now rewrite (contains_lower0_same_lower U p kw kw' Hp Hk), IH.
Qed.

Lemma C10_witness :
  @classify_material latin (lit "Oak Flooring") (lit "solid oak boards")
    [lit "wood"] =
  @classify_material latin (lit "OAK flooring") (lit "Solid Oak Boards")
    [lit "WOOD"] /\
  @classify_material latin (lit "Gr" ++ 0xC8%N :: lit "s tile") [] [] =
  @classify_material latin (lit "gr" ++ 0xE8%N :: lit "s TILE") [] [].
Proof.
  split.
  - apply (proj1 (C10_ascii_case_is_irrelevant latin));
      repeat (constructor; try (vm_compute; tauto)).
  - apply (proj2 (C10_ascii_case_is_irrelevant latin));
      [vm_compute; reflexivity | reflexivity | constructor].
Defined.

(** C10 as stated fails outside ASCII: uppercasing "ſteel", spelt with
    U+017F LATIN SMALL LETTER LONG S, gives "STEEL"; the first is classified
    as concrete (no pattern occurs in it), the second as metal. *)
Lemma C10_counterexample :
  @upper latin long_s_teel = lit "STEEL" /\
  @classify_material latin long_s_teel [] [] = lit "concrete" /\
  @classify_material latin (@upper latin long_s_teel) [] [] = lit "metal".
Proof. repeat split; vm_compute; reflexivity. Qed.

(** ** Parsing the keyword arrays *)

Section StripFacts.
Variable f : N -> bool.

Lemma lstrip_with_suffix (s : str) : exists a, s = a ++ lstrip_with f s.
Proof.
  induction s as [|c s [a IH]]; [now exists []|].
  cbn [lstrip_with]. destruct (f c); [|now exists []].
  exists (c :: a). cbn [app]. now f_equal.
Qed.

Lemma lstrip_with_starts (s : str) : starts_in f (lstrip_with f s) = false.
Proof.
  induction s as [|c s IH]; [reflexivity|].
  cbn [lstrip_with]. destruct (f c) eqn:E; [exact IH|].
  cbn [starts_in]. exact E.
Qed.

Lemma lstrip_with_id (s : str) : starts_in f s = false -> lstrip_with f s = s.
Proof. destruct s as [|c s]; [reflexivity|]. cbn. now intros ->. Qed.

Lemma rstrip_with_id (s : str) : ends_in f s = false -> rstrip_with f s = s.
Proof.
  unfold ends_in, rstrip_with. intros H.
  now rewrite lstrip_with_id, rev_involutive.
Qed.

Lemma rstrip_with_prefix (s : str) : exists b, s = rstrip_with f s ++ b.
Proof.
  unfold rstrip_with. destruct (lstrip_with_suffix (rev s)) as [a Ha].
  exists (rev a). rewrite <- rev_app_distr, <- Ha. now rewrite rev_involutive.
Qed.

Lemma rstrip_with_ends (s : str) : ends_in f (rstrip_with f s) = false.
Proof.
  unfold ends_in, rstrip_with. rewrite rev_involutive.
  apply lstrip_with_starts.
Qed.

Lemma rstrip_with_starts (s : str) :
  starts_in f s = false -> starts_in f (rstrip_with f s) = false.
Proof.
  intros H. destruct (rstrip_with_prefix s) as [b Hb].
  destruct (rstrip_with f s) as [|c t]; [reflexivity|].
  rewrite Hb in H. exact H.
Qed.

Lemma strip_with_edges (s : str) :
  starts_in f (strip_with f s) = false /\ ends_in f (strip_with f s) = false.
Proof.
  unfold strip_with. split.
  - apply rstrip_with_starts, lstrip_with_starts.
  - apply rstrip_with_ends.
Qed.

(** Stripping only removes: what is left occurred in the text. *)
Lemma strip_with_incl (s : str) (c : N) : In c (strip_with f s) -> In c s.
Proof.
  unfold strip_with. intros H.
  destruct (rstrip_with_prefix (lstrip_with f s)) as [b Hb].
  destruct (lstrip_with_suffix s) as [a Ha].
  rewrite Ha, Hb. apply in_or_app. right. apply in_or_app. now left.
Qed.

End StripFacts.

Lemma str_split_cons (sep : N) (s : str) :
  exists x xs, str_split sep s = x :: xs.
Proof.
  induction s as [|c s [x [xs IH]]]; cbn [str_split]; [now eauto|].
  destruct (c =? sep)%N; [now eauto|]. rewrite IH. now eauto.
Qed.

Lemma str_split_length (sep : N) (s : str) :
  List.length (str_split sep s) = S (count_occ N.eq_dec s sep).
Proof.
  induction s as [|c s IH]; [reflexivity|].
  cbn [str_split count_occ].
  destruct (N.eqb_spec c sep) as [->|Hne].
  - destruct (N.eq_dec sep sep); [|congruence]. cbn [List.length]. now rewrite IH.
  - destruct (N.eq_dec c sep); [congruence|].
    destruct (str_split_cons sep s) as [x [xs E]]. rewrite E in *. exact IH.
Qed.

Lemma str_split_no_sep (sep : N) (s : str) :
  Forall (fun x => ~ In sep x) (str_split sep s).
Proof.
  induction s as [|c s IH]; cbn [str_split].
  - constructor; [intros [] | constructor].
  - destruct (N.eqb_spec c sep) as [->|Hne].
    + constructor; [intros [] | exact IH].
    + destruct (str_split sep s) as [|x xs]; [repeat constructor; intros [H|[]]; congruence|].
      inversion IH as [|? ? Hx Hxs]; subst. constructor; [|exact Hxs].
      intros [H|H]; [congruence | now apply Hx].
Qed.

Lemma str_split_app (sep : N) (x rest : str) :
  ~ In sep x -> str_split sep (x ++ sep :: rest) = x :: str_split sep rest.
Proof.
  induction x as [|c x IH]; intros Hx.
  - cbn [app str_split]. now rewrite N.eqb_refl.
  - cbn [app str_split].
    destruct (N.eqb_spec c sep) as [->|_]; [exfalso; apply Hx; now left|].
    rewrite IH; [reflexivity|]. intros H. apply Hx. now right.
Qed.

Lemma str_split_one (sep : N) (x : str) :
  ~ In sep x -> str_split sep x = [x].
Proof.
  induction x as [|c x IH]; intros Hx; [reflexivity|].
  cbn [str_split].
  destruct (N.eqb_spec c sep) as [->|_]; [exfalso; apply Hx; now left|].
  rewrite IH; [reflexivity|]. intros H. apply Hx. now right.
Qed.

Lemma str_split_snoc (sep : N) (s : str) :
  str_split sep (s ++ [sep]) = str_split sep s ++ [[]].
Proof.
  induction s as [|c s IH]; cbn [app str_split].
  - now rewrite N.eqb_refl.
  - rewrite IH. destruct (c =? sep)%N; [reflexivity|].
    now destruct (str_split_cons sep s) as [x [xs ->]].
Qed.

(** X1: [parse_keywords] yields one keyword for each comma and one more,
    so it never returns an empty list: the text of an empty array gives one
    empty keyword, and a trailing comma gives a last, empty keyword. *)
Theorem parse_keywords_count (keywords_str : str) :
  List.length (parse_keywords keywords_str) =
    S (count_occ N.eq_dec keywords_str 44%N) /\
  parse_keywords keywords_str <> [] /\
  parse_keywords [] = [[]] /\
  parse_keywords (keywords_str ++ lit ",") = parse_keywords keywords_str ++ [[]].
Proof.
  unfold parse_keywords. rewrite length_map, str_split_length.
  split; [reflexivity|]. split; [|split; [reflexivity|]].
  - destruct (str_split_cons 44 keywords_str) as [x [xs ->]]. discriminate.
  - change (lit ",") with [44%N]. now rewrite str_split_snoc, map_app.
Qed.

(** X2: no keyword that [parse_keywords] returns contains a comma, begins
    with a quote or ends with one. *)
Theorem parse_keywords_clean (keywords_str : str) :
  Forall clean_keyword (parse_keywords keywords_str).
Proof.
  unfold parse_keywords. apply Forall_map.
  eapply Forall_impl; [|apply (str_split_no_sep 44 keywords_str)].
  intros x Hx. unfold clean_keyword, str_strip_chars, str_strip.
  split; [|apply strip_with_edges].
  intros H. apply Hx. now do 2 apply strip_with_incl in H.
Qed.

Lemma unquote_keyword (k : str) :
  starts_in is_quote k = false -> ends_in is_quote k = false ->
  str_strip_chars QUOTES (str_strip (lit "'" ++ k ++ lit "'")) = k /\
  str_strip_chars QUOTES (str_strip (lit " " ++ lit "'" ++ k ++ lit "'")) = k.
Proof.
  intros Hs He.
  assert (Hstrip : str_strip (lit "'" ++ k ++ lit "'") = lit "'" ++ k ++ lit "'").
  { unfold str_strip, strip_with. cbn [lit list_ascii_of_string map app].
    change (lstrip_with is_space (N_of_ascii "'" :: k ++ [N_of_ascii "'"]))
      with (N_of_ascii "'" :: k ++ [N_of_ascii "'"]).
    apply rstrip_with_id. unfold ends_in.
    cbn [rev]. rewrite rev_app_distr. reflexivity. }
  assert (Hq : str_strip_chars QUOTES (lit "'" ++ k ++ lit "'") = k).
  { unfold str_strip_chars, strip_with. fold is_quote.
    cbn [lit list_ascii_of_string map app].
    change (lstrip_with is_quote (N_of_ascii "'" :: k ++ [N_of_ascii "'"]))
      with (lstrip_with is_quote (k ++ [N_of_ascii "'"])).
    destruct k as [|c k]; [reflexivity|].
    cbn [starts_in] in Hs. cbn [app lstrip_with]. rewrite Hs.
    unfold rstrip_with. change (c :: k ++ [N_of_ascii "'"])
      with ((c :: k) ++ [N_of_ascii "'"]).
    rewrite rev_app_distr.
    change (lstrip_with is_quote (rev [N_of_ascii "'"] ++ rev (c :: k)))
      with (lstrip_with is_quote (rev (c :: k))).
    rewrite lstrip_with_id by exact He. apply rev_involutive. }
  split.
  - now rewrite Hstrip.
  - assert (Hsp : str_strip (lit " " ++ lit "'" ++ k ++ lit "'") =
                  str_strip (lit "'" ++ k ++ lit "'")) by reflexivity.
    now rewrite Hsp, Hstrip.
Qed.

Lemma str_split_render_keywords (k : str) (ks : list str) :
  Forall (fun k => ~ In 44%N k) (k :: ks) ->
  str_split 44 (render_keywords (k :: ks)) =
  (lit "'" ++ k ++ lit "'") ::
  map (fun k => lit " " ++ lit "'" ++ k ++ lit "'") ks.
Proof.
  assert (Hq : forall x, ~ In 44%N x -> ~ In 44%N (lit "'" ++ x ++ lit "'")).
  { intros x Hx H. cbn [lit list_ascii_of_string map app] in H.
    destruct H as [H|H]; [discriminate|].
    apply in_app_or in H as [H|[H|[]]]; [now apply Hx | discriminate]. }
  revert k; induction ks as [|k' ks IH]; intros k Hall;
    inversion Hall as [|? ? Hk Hks]; subst.
  - unfold render_keywords. cbn [map join]. now apply str_split_one, Hq.
  - unfold render_keywords in *. cbn [map].
    change (join (lit ", ")
              ((lit "'" ++ k ++ lit "'") :: (lit "'" ++ k' ++ lit "'")
               :: map (fun k0 => lit "'" ++ k0 ++ lit "'") ks))
      with ((lit "'" ++ k ++ lit "'") ++ 44%N ::
            (32%N :: join (lit ", ")
               (map (fun k0 => lit "'" ++ k0 ++ lit "'") (k' :: ks)))).
    rewrite str_split_app by now apply Hq.
    f_equal. cbn [str_split]. change (32 =? 44)%N with false. cbv iota.
    now rewrite (IH k' Hks).
Qed.

(** X3: round trip of the keyword arrays.  A non-empty list of keywords
    that contain no comma and neither begin nor end with a quote, written
    as constants.ts writes an array (each keyword in single quotes, the
    items separated by a comma and a space), is parsed back unchanged; white
    space inside the quotes is kept. *)
Theorem parse_render_keywords (ks : list str) :
  ks <> [] -> Forall clean_keyword ks ->
  parse_keywords (render_keywords ks) = ks.
Proof.
  intros Hne Hclean. destruct ks as [|k ks]; [congruence|].
  unfold parse_keywords. rewrite str_split_render_keywords.
  - inversion Hclean as [|? ? [_ [Hs He]] Hrest]; subst.
    cbn [map]. rewrite (proj1 (unquote_keyword k Hs He)). f_equal.
    rewrite map_map. rewrite <- (map_id ks) at 2.
    apply map_ext_in. intros x Hx.
    rewrite Forall_forall in Hrest. destruct (Hrest x Hx) as [_ [Hs' He']].
    exact (proj2 (unquote_keyword x Hs' He')).
  - eapply Forall_impl; [|exact Hclean]. now intros x [Hx _].
Qed.

Lemma parse_render_keywords_witness :
  parse_keywords (render_keywords [lit "wood"; lit " solid oak "; []]) =
  [lit "wood"; lit " solid oak "; []].
Proof.
  apply parse_render_keywords; [discriminate|].
  repeat constructor; try reflexivity;
    cbn; intros H; repeat destruct H as [H|H]; discriminate || contradiction.
Defined.

(** X4: empty keywords, which [parse_keywords] produces for an empty array
    and after a trailing comma, never influence the category: removing them
    from the keyword list leaves the classification unchanged, and a
    material read with an empty keyword array is classified as one without
    keywords. *)
Theorem classify_material_ignores_empty_keywords (U : UnicodeData)
    (name desc : str) (keywords : list str) :
  classify_material name desc keywords =
    classify_material name desc
      (filter (fun k => negb (str_eqb k [])) keywords) /\
  classify_material name desc (parse_keywords []) =
    classify_material name desc [].
Proof.
  assert (H : forall kws,
            classify_material name desc kws =
            classify_material name desc
              (filter (fun k => negb (str_eqb k [])) kws)).
  { intros kws. apply classify_material_text. intros p Hp.
    rewrite !contains_material_text by assumption. f_equal.
    induction kws as [|k kws IH]; [reflexivity|].
    cbn [filter existsb]. destruct k as [|c k].
    - cbn [str_eqb negb]. rewrite <- IH.
      destruct p; [discriminate | reflexivity].
    - cbn [str_eqb negb existsb]. now rewrite IH. }
  split; [apply H|]. now rewrite (H (parse_keywords [])).
Qed.

(** ** The formatter and its keys *)

Lemma getitem_present {V : Type} (d : dict V) (k : str) :
  In k (keys d) -> exists v, getitem d k = Ok v.
Proof.
  induction d as [|[k' v] d IH]; intros Hk; [contradiction|].
  cbn [getitem]. destruct (getitem d k) as [v'|e] eqn:E; [now exists v'|].
  destruct Hk as [Hk | Hk].
  - cbn [fst] in Hk. subst k'.
    assert (Hrefl : str_eqb k k = true) by now apply str_eqb_eq.
    rewrite Hrefl. now exists v.
  - destruct (IH Hk) as [v' Hv']. discriminate.
Qed.

Lemma getitem_Ok_in {V : Type} (d : dict V) (k : str) (v : V) :
  getitem d k = Ok v -> In k (keys d).
Proof.
  intros H. destruct (in_dec (list_eq_dec N.eq_dec) k (keys d)) as [Hin|Hout];
    [exact Hin|].
  rewrite (getitem_absent d k Hout) in H. discriminate.
Qed.

(** X5: [format_profile] succeeds exactly when the profile has the seven
    phases among its keys; it checks nothing else.  Otherwise it raises
    [KeyError] for the first phase, in the order of the record, that the
    profile lacks, and returns no partial record. *)
Theorem format_profile_keys (mat_id : str) (profile : dict rating) :
  ((exists text, format_profile mat_id profile = Ok text) <->
   (forall phase, In phase PHASES -> In phase (keys profile))) /\
  (forall before phase after,
     PHASES = before ++ phase :: after ->
     (forall ph, In ph before -> In ph (keys profile)) ->
     ~ In phase (keys profile) ->
     format_profile mat_id profile = Raise (KeyError phase)).
Proof.
  split; [split|].
  - intros [text Htext] phase Hphase. unfold format_profile in Htext.
    destruct (getitem profile (lit "raw")) eqn:E1; [|discriminate].
    destruct (getitem profile (lit "manufacturing")) eqn:E2; [|discriminate].
    destruct (getitem profile (lit "transport")) eqn:E3; [|discriminate].
    destruct (getitem profile (lit "installation")) eqn:E4; [|discriminate].
    destruct (getitem profile (lit "inUse")) eqn:E5; [|discriminate].
    destruct (getitem profile (lit "maintenance")) eqn:E6; [|discriminate].
    destruct (getitem profile (lit "endOfLife")) eqn:E7; [|discriminate].
    unfold PHASES, PHASE_NAMES in Hphase. cbn [map In] in Hphase.
    repeat destruct Hphase as [<- | Hphase]; try contradiction;
      eapply getitem_Ok_in; eassumption.
  - intros Hall.
    assert (Hget : forall ph, In ph PHASE_NAMES ->
              exists r, getitem profile (lit ph) = Ok r).
    { intros ph Hph. apply getitem_present, Hall. now apply in_map. }
    destruct (Hget "raw"%string) as [r1 G1]; [cbn; tauto|].
    destruct (Hget "manufacturing"%string) as [r2 G2]; [cbn; tauto|].
    destruct (Hget "transport"%string) as [r3 G3]; [cbn; tauto|].
    destruct (Hget "installation"%string) as [r4 G4]; [cbn; tauto|].
    destruct (Hget "inUse"%string) as [r5 G5]; [cbn; tauto|].
    destruct (Hget "maintenance"%string) as [r6 G6]; [cbn; tauto|].
    destruct (Hget "endOfLife"%string) as [r7 G7]; [cbn; tauto|].
    eexists.
    apply (format_profile_lines mat_id profile r1 r2 r3 r4 r5 r6 r7);
      assumption.
  - intros before phase after HP Hbefore Habsent.
    apply getitem_absent in Habsent.
    assert (Hget : forall ph, In ph before ->
              exists r, getitem profile ph = Ok r).
    { intros ph Hph. now apply getitem_present, Hbefore. }
    unfold PHASES, PHASE_NAMES in HP. cbn [map] in HP.
    unfold format_profile.
    repeat (destruct before as [|?b before];
            [ cbn [app] in HP; injection HP as <- _;
              rewrite Habsent; reflexivity
            | cbn [app] in HP;
              let Hb := fresh "Hb" in
              let r := fresh "r" in
              injection HP as Hb HP; subst;
              destruct (Hget _ (or_introl eq_refl)) as [r Hr];
              rewrite Hr; cbn [bind];
              assert (Hget' : forall ph, In ph before ->
                        exists r, getitem profile ph = Ok r)
                by (intros ph Hph; apply Hget; now right);
              clear Hget Hr; rename Hget' into Hget ]).
    destruct before; discriminate.
Qed.

Lemma format_profile_keys_witness :
  format_profile (lit "oak")
    [(lit "raw", rate 1 "high"); (lit "manufacturing", rate 2 "high");
     (lit "endOfLife", rate 1 "high")] =
  Raise (KeyError (lit "transport")).
Proof.
  apply (proj2 (format_profile_keys _ _)
           [lit "raw"; lit "manufacturing"] (lit "transport")
           (map lit ["installation"; "inUse"; "maintenance"; "endOfLife"]%string)).
  - reflexivity.
  - intros ph [<- | [<- | []]]; cbn; tauto.
  - cbn. intros H. repeat destruct H as [H|H]; discriminate || contradiction.
Defined.

(** ** Composition of the generation loop *)

Lemma generate_from_acc (U : UnicodeData) profiles existing materials acc :
  generate_from profiles existing materials acc =
  match generate_from profiles existing materials [] with
  | Completed records => Completed (acc ++ records)
  | Uncaught e records => Uncaught e (acc ++ records)
  end.
Proof.
  revert acc; induction materials as [|mat materials IH]; intros acc.
  - cbn [generate_from]. now rewrite app_nil_r.
  - cbn [generate_from]. destruct (negb (mem (id mat) existing)); [|apply IH].
    destruct (getitem profiles _) as [profile|e];
      [|now rewrite app_nil_r].
    destruct (format_profile (id mat) profile) as [text|e];
      [|now rewrite app_nil_r].
    rewrite (IH (acc ++ [text])), (IH ([] ++ [text])).
    destruct (generate_from profiles existing materials []);
      now rewrite <- app_assoc.
Qed.

(** X6: the loop treats each material on its own: the records of a list
    of materials are those of its first part followed by those of the rest,
    and an exception in the first part stops the run there.  The set of
    existing profiles is not updated while the loop runs, so a material
    listed twice gets its record twice. *)
Theorem generate_from_concat (U : UnicodeData) profiles existing_profiles
    (first rest : list material) :
  generate_from profiles existing_profiles (first ++ rest) [] =
    match generate_from profiles existing_profiles first [] with
    | Completed done =>
        match generate_from profiles existing_profiles rest [] with
        | Completed records => Completed (done ++ records)
        | Uncaught e records => Uncaught e (done ++ records)
        end
    | Uncaught e done => Uncaught e done
    end /\
  (forall records,
     generate_from profiles existing_profiles first [] = Completed records ->
     generate_from profiles existing_profiles (first ++ first) [] =
     Completed (records ++ records)).
Proof.
  assert (H : forall a b,
            generate_from profiles existing_profiles (a ++ b) [] =
            match generate_from profiles existing_profiles a [] with
            | Completed done =>
                match generate_from profiles existing_profiles b [] with
                | Completed records => Completed (done ++ records)
                | Uncaught e records => Uncaught e (done ++ records)
                end
            | Uncaught e done => Uncaught e done
            end).
  { intros a b. rewrite generate_from_app.
    destruct (generate_from profiles existing_profiles a []) as [done|e done];
      [|reflexivity].
    apply generate_from_acc. }
  split; [apply H|].
  intros records Hrun. now rewrite H, Hrun.
Qed.

(** ** What the patterns match *)

Lemma strip_prefix_Some (p s rest : str) :
  strip_prefix p s = Some rest -> s = p ++ rest.
Proof.
  revert s; induction p as [|a p IH]; intros s H; cbn [strip_prefix] in H.
  - now injection H as ->.
  - destruct s as [|b s]; [discriminate|].
    destruct (N.eqb_spec a b) as [->|]; [|discriminate].
    cbn [app]. f_equal. now apply IH.
Qed.

Lemma firstn_consumed (m rest : str) :
  firstn (List.length (m ++ rest) - List.length rest) (m ++ rest) = m.
Proof.
  rewrite length_app, Nat.add_sub. rewrite firstn_app, Nat.sub_diag.
  cbn [firstn]. now rewrite app_nil_r, firstn_all.
Qed.

Section MatcherFacts.
Variable R : Type.

Lemma star_greedy_sound cs (k : str -> option R) s res :
  star_greedy cs k s = Some res ->
  exists m rest,
    s = m ++ rest /\ Forall (fun c => in_charset cs c = true) m /\
    k rest = Some res.
Proof.
  induction s as [|c s IH]; cbn [star_greedy]; intros H.
  - now exists [], [].
  - destruct (in_charset cs c) eqn:Hc; [|now exists [], (c :: s)].
    destruct (star_greedy cs k s) as [r|] eqn:E; [|now exists [], (c :: s)].
    injection H as ->. destruct (IH eq_refl) as (m & rest & -> & Hm & Hk).
    exists (c :: m), rest. repeat split; [now constructor | exact Hk].
Qed.

Lemma star_lazy_sound cs (k : str -> option R) s res :
  star_lazy cs k s = Some res ->
  exists m rest,
    s = m ++ rest /\ Forall (fun c => in_charset cs c = true) m /\
    k rest = Some res.
Proof.
  induction s as [|c s IH]; cbn [star_lazy]; intros H.
  - destruct (k []) eqn:E; [|discriminate]. injection H as ->.
    now exists [], [].
  - destruct (k (c :: s)) eqn:E.
    + injection H as ->. now exists [], (c :: s).
    + destruct (in_charset cs c) eqn:Hc; [|discriminate].
      destruct (IH H) as (m & rest & -> & Hm & Hk).
      exists (c :: m), rest. repeat split; [now constructor | exact Hk].
Qed.

(** Whatever [run] accepts is in the language of the pattern. *)
Lemma run_sound (r : regex) :
  forall s caps (k : str -> list str -> option R) res,
    run r s caps k = Some res ->
    exists m rest gs,
      s = m ++ rest /\ lang r m gs /\ k rest (caps ++ gs) = Some res.
Proof.
  induction r as [l | cs | cs greedy | r1 IH1 r2 IH2 | r0 IH0];
    intros s caps k res H; cbn [run] in H.
  - destruct (strip_prefix (lit l) s) as [s'|] eqn:E; [|discriminate].
    apply strip_prefix_Some in E.
    exists (lit l), s', []. rewrite app_nil_r. now repeat split.
  - destruct s as [|c s]; [discriminate|].
    destruct (in_charset cs c) eqn:Hc; [|discriminate].
    exists [c], s, []. rewrite app_nil_r. repeat split; [|exact H].
    now exists c.
  - assert (Hs : exists m rest,
               s = m ++ rest /\ Forall (fun c => in_charset cs c = true) m /\
               k rest caps = Some res).
    { destruct greedy;
        [apply star_greedy_sound in H | apply star_lazy_sound in H];
        exact H. }
    destruct Hs as (m & rest & -> & Hm & Hk).
    exists m, rest, []. rewrite app_nil_r. now repeat split.
  - apply IH1 in H as (m1 & rest1 & g1 & -> & L1 & H).
    apply IH2 in H as (m2 & rest & g2 & -> & L2 & H).
    exists (m1 ++ m2), rest, (g1 ++ g2).
    rewrite <- !app_assoc. rewrite <- app_assoc in H.
    repeat split; [|exact H]. now exists m1, m2, g1, g2.
  - apply IH0 in H as (m & rest & g0 & -> & L0 & H).
    rewrite firstn_consumed, <- app_assoc in H.
    exists m, rest, (g0 ++ [m]). repeat split; [|exact H]. now exists g0.
Qed.

End MatcherFacts.

Lemma match_at_sound (r : regex) (s : str) caps rest :
  match_at r s = Some (caps, rest) -> exists m, s = m ++ rest /\ lang r m caps.
Proof.
  unfold match_at. intros H.
  apply run_sound in H as (m & rest' & gs & -> & L & H).
  cbn [app] in H. injection H as <- <-. now exists m.
Qed.

Lemma search_sound (r : regex) (s : str) caps :
  search r s = Some caps ->
  exists pre m post, s = pre ++ m ++ post /\ lang r m caps.
Proof.
  induction s as [|c s IH]; cbn [search]; intros H.
  - destruct (match_at r []) as [[caps' rest]|] eqn:E; [|discriminate].
    injection H as ->. apply match_at_sound in E as (m & E & L).
    now exists [], m, rest.
  - destruct (match_at r (c :: s)) as [[caps' rest]|] eqn:E.
    + injection H as ->. apply match_at_sound in E as (m & E & L).
      now exists [], m, rest.
    + destruct (IH H) as (pre & m & post & -> & L).
      now exists (c :: pre), m, post.
Qed.

Lemma finditer_from_sound (r : regex) (s : str) (skip : nat) caps :
  In caps (finditer_from r s skip) ->
  exists pre m post, s = pre ++ m ++ post /\ lang r m caps.
Proof.
  revert skip; induction s as [|c s IH]; intros skip H.
  - destruct skip; cbn [finditer_from] in H; [|contradiction].
    destruct (match_at r []) as [[caps' rest]|] eqn:E; [|contradiction].
    destruct H as [<- | []]. apply match_at_sound in E as (m & E & L).
    now exists [], m, rest.
  - assert (Hrec : forall n, In caps (finditer_from r s n) ->
               exists pre m post, c :: s = pre ++ m ++ post /\ lang r m caps).
    { intros n Hn. destruct (IH n Hn) as (pre & m & post & -> & L).
      now exists (c :: pre), m, post. }
    destruct skip; cbn [finditer_from] in H; [|now apply (Hrec skip)].
    destruct (match_at r (c :: s)) as [[caps' rest]|] eqn:E;
      [|now apply (Hrec 0)].
    destruct H as [<- | H]; [|now apply (Hrec _ H)].
    apply match_at_sound in E as (m & E & L). now exists [], m, rest.
Qed.

Ltac break_lang :=
  repeat match goal with
         | H : exists _, _ |- _ => destruct H as [? H]
         | H : _ /\ _ |- _ => let H' := fresh H in destruct H as [H H']
         end.

Lemma not_quote_forall (m : str) :
  Forall (fun c => in_charset (NotChar 39) c = true) m -> ~ In 39%N m.
Proof.
  intros H Hin. rewrite Forall_forall in H. specialize (H _ Hin).
  discriminate.
Qed.

(** X7: what the reading of the palette returns is in the text.  Every
    material read has a non-empty id; its id, name and description contain
    no single quote; the four fields stand in the text in the order id,
    name, description, keywords, each text field between single quotes
    and the keywords between brackets, and the keywords are those parsed
    from the text between the brackets. *)
Theorem read_materials_sound (materials_text : str) (mat : material) :
  In mat (read_materials materials_text) ->
  id mat <> [] /\
  ~ In 39%N (id mat) /\ ~ In 39%N (name mat) /\ ~ In 39%N (description mat) /\
  exists kw,
    keywords mat = parse_keywords kw /\
    occurs_as_material materials_text (id mat) (name mat) (description mat) kw.
Proof.
  unfold read_materials. intros H. apply in_map_iff in H as (caps & <- & H).
  apply finditer_from_sound in H as (pre & m & post & -> & L).
  cbn [MATERIAL_RE Seq fold_right Plus lang] in L. break_lang. subst.
  cbn [app group Nat.sub nth id name description keywords].
  repeat match goal with
         | H : Forall (fun c => in_charset (NotChar 39) c = true) _ |- _ =>
             apply not_quote_forall in H
         end.
  split; [discriminate|].
  split; [intros [Hq | Hq]; [subst; discriminate | contradiction]|].
  split; [assumption|]. split; [assumption|].
  eexists. split; [reflexivity|].
  match goal with
  | |- occurs_as_material
         (?pre ++
          (_ ++ ?w1 ++ _ ++ ?w2 ++ _ ++
           (_ :: _ ++ _ ++ ?x1 ++ _ ++ ?w3 ++ _ ++ _ ++ _ ++
                 ?x2 ++ _ ++ ?w4 ++ _ ++ _ ++ _ ++
                 ?x3 ++ _ ++ ?w5 ++ _ ++ _ ++ _ ++ _)) ++ ?post) _ _ _ _ =>
      exists pre, w1, w2, x1, w3, x2, w4, x3, w5, post
  end.
  unfold spaces. repeat split; try assumption.
  change (lit "") with (@nil N).
  repeat (rewrite <- !app_assoc; cbn [app]). reflexivity.
Qed.

Lemma read_materials_sound_witness :
  id sample_material <> [] /\
  ~ In 39%N (id sample_material) /\ ~ In 39%N (name sample_material) /\
  ~ In 39%N (description sample_material) /\
  exists kw,
    keywords sample_material = parse_keywords kw /\
    occurs_as_material sample_palette (id sample_material)
      (name sample_material) (description sample_material) kw.
Proof.
  apply read_materials_sound. vm_compute. now left.
Defined.

(** X8: what the reading of the existing profiles returns is in the text.
    Every id read is non-empty, contains no single quote, and stands in the
    content after the name MATERIAL_LIFECYCLE_PROFILES, between single
    quotes and followed by a colon, optional white space and an opening
    brace. *)
Theorem read_existing_profiles_sound (content pid : str) :
  In pid (read_existing_profiles content) ->
  pid <> [] /\ ~ In 39%N pid /\ occurs_as_profile content pid.
Proof.
  unfold read_existing_profiles.
  destruct (search PROFILES_SECTION_RE content) as [m|] eqn:E;
    [|contradiction].
  intros H. apply in_map_iff in H as (caps & <- & H).
  apply search_sound in E as (pre & sec & post & -> & L).
  cbn [PROFILES_SECTION_RE Seq fold_right lang] in L. break_lang. subst.
  cbn [app group Nat.sub nth] in H.
  apply finditer_from_sound in H as (pre' & m' & post' & Hsec & L').
  cbn [PROFILE_ID_RE Seq fold_right Plus lang] in L'. break_lang. subst.
  cbn [app group Nat.sub nth].
  repeat match goal with
         | H : Forall (fun c => in_charset (NotChar 39) c = true) _ |- _ =>
             apply not_quote_forall in H
         end.
  split; [discriminate|].
  split; [intros [Hq | Hq]; [subst; discriminate | contradiction]|].
  match goal with
  | |- occurs_as_profile
         (?pre ++
          (_ ++ ?mid ++ _ ++
           (?pre' ++ (_ ++ (_ :: _ ++ _ ++ ?ws ++ _)) ++ ?post') ++ _) ++
          ?post) _ =>
      exists pre, (mid ++ lit "{" ++ pre'), ws, (post' ++ lit "};" ++ post)
  end.
  split; [assumption|].
  change (lit "") with (@nil N).
  repeat (rewrite <- !app_assoc; cbn [app]). reflexivity.
Qed.

Lemma read_existing_profiles_sound_witness :
  occurs_as_profile
    (lit "const MATERIAL_LIFECYCLE_PROFILES = { 'oak': { raw: 1 } };")
    (lit "oak").
Proof.
  apply read_existing_profiles_sound. vm_compute. now left.
Defined.

(** ** The two section patterns *)

Lemma find_first_Some (p s a b : str) :
  find_first p s = Some (a, b) -> s = a ++ p ++ b.
Proof.
  revert a; induction s as [|c s IH]; intros a H; cbn [find_first] in H.
  - destruct (strip_prefix p []) as [rest|] eqn:E; [|discriminate].
    injection H as <- <-. now apply strip_prefix_Some in E.
  - destruct (strip_prefix p (c :: s)) as [rest|] eqn:E.
    + injection H as <- <-. now apply strip_prefix_Some in E.
    + destruct (find_first p s) as [[a' b']|]; [|discriminate].
      injection H as <- <-. cbn [app]. f_equal. now apply IH.
Qed.

Lemma find_first_None (p s : str) :
  find_first p s = None -> forall a b, s <> a ++ p ++ b.
Proof.
  induction s as [|c s IH]; cbn [find_first]; intros H a b Hs.
  - symmetry in Hs. apply app_eq_nil in Hs as [-> Hs].
    apply app_eq_nil in Hs as [-> ->]. discriminate.
  - destruct (strip_prefix p (c :: s)) eqn:E; [discriminate|].
    destruct a as [|x a].
    + cbn [app] in Hs. rewrite Hs, strip_prefix_app in E. discriminate.
    + destruct (find_first p s) as [[a' b']|] eqn:F; [discriminate|].
      injection Hs as _ Hs. now apply (IH eq_refl a b).
Qed.

(** The occurrence found is the leftmost one. *)
Lemma find_first_leftmost (p s a b : str) :
  find_first p s = Some (a, b) ->
  forall a' b', s = a' ++ p ++ b' -> List.length a <= List.length a'.
Proof.
  revert a; induction s as [|c s IH]; intros a H a' b' Hs;
    cbn [find_first] in H.
  - destruct (strip_prefix p []); [|discriminate].
    injection H as <- _. cbn. lia.
  - destruct (strip_prefix p (c :: s)) as [rest|] eqn:E.
    + injection H as <- _. cbn. lia.
    + destruct (find_first p s) as [[a0 b0]|] eqn:F; [|discriminate].
      injection H as <- <-. destruct a' as [|x a'].
      * cbn [app] in Hs. rewrite Hs, strip_prefix_app in E. discriminate.
      * injection Hs as _ Hs. cbn [List.length].
        apply le_n_S. now apply (IH a0 eq_refl a' b').
Qed.

Lemma is_suffix_same (s t t' x y : str) :
  s = x ++ t -> s = y ++ t' -> List.length t' <= List.length t ->
  is_suffix t' t.
Proof.
  intros -> H Hlen. apply app_eq_app in H as [l [[-> ->] | [-> ->]]].
  - rewrite length_app in Hlen. destruct l; [now exists []|]. cbn in Hlen. lia.
  - now exists l.
Qed.

Lemma find_first_None_suffix (p t t' : str) :
  find_first p t = None -> is_suffix t' t -> find_first p t' = None.
Proof.
  intros H [x ->]. destruct (find_first p t') as [[a b]|] eqn:E; [|reflexivity].
  apply find_first_Some in E. exfalso.
  apply (find_first_None p _ H (x ++ a) b). now rewrite E, <- app_assoc.
Qed.

Section LazyFacts.
Variable R : Type.

(** A lazy [.*?] followed by literal text stops at the first occurrence of
    the text, provided that what follows, once it has failed, fails on
    every later part of the input. *)
Lemma star_lazy_lit (p : str) (k : str -> option R) (s : str) :
  (forall t t', k t = None -> is_suffix t' t -> k t' = None) ->
  star_lazy Dot
    (fun t => match strip_prefix p t with
              | Some t' => k t'
              | None => None
              end) s =
  match find_first p s with
  | Some (_, b) => k b
  | None => None
  end.
Proof.
  intros Hmono. induction s as [|c s IH]; cbn [star_lazy find_first].
  - destruct (strip_prefix p []) as [t'|]; [|reflexivity].
    now destruct (k t').
  - destruct (strip_prefix p (c :: s)) as [t'|] eqn:E.
    + destruct (k t') as [r|] eqn:Hk; [reflexivity|].
      cbn [in_charset]. rewrite IH.
      destruct (find_first p s) as [[a b]|] eqn:F; [|reflexivity].
      apply (Hmono t' b Hk).
      apply strip_prefix_Some in E. apply find_first_Some in F.
      apply (is_suffix_same (c :: s) t' b p (c :: a ++ p)); [exact E | |].
      * rewrite F. cbn [app]. now rewrite <- app_assoc.
      * apply (f_equal (@List.length N)) in E, F.
        rewrite !length_app in *. cbn [List.length] in E. lia.
    + cbn [in_charset]. rewrite IH.
      now destruct (find_first p s) as [[a b]|].
Qed.

(** A lazy group [(.*?)] followed by literal text captures the text before
    the first occurrence. *)
Lemma star_lazy_capture (p : str) (h : str -> str -> R) (pre s : str) :
  star_lazy Dot
    (fun u => match strip_prefix p u with
              | Some u' =>
                  Some (h (firstn (List.length (pre ++ s) - List.length u)
                                  (pre ++ s)) u')
              | None => None
              end) s =
  match find_first p s with
  | Some (a, b) => Some (h (pre ++ a) b)
  | None => None
  end.
Proof.
  revert pre; induction s as [|c s IH]; intros pre;
    cbn [star_lazy find_first].
  - destruct (strip_prefix p []) as [u'|]; [|reflexivity].
    now rewrite firstn_consumed, app_nil_r.
  - destruct (strip_prefix p (c :: s)) as [u'|] eqn:E.
    + now rewrite firstn_consumed, app_nil_r.
    + cbn [in_charset].
      replace (pre ++ c :: s) with ((pre ++ [c]) ++ s)
        by now rewrite <- app_assoc.
      rewrite IH. destruct (find_first p s) as [[a b]|]; [|reflexivity].
      now rewrite <- app_assoc.
Qed.

Lemma star_lazy_ext cs (k k' : str -> option R) (s : str) :
  (forall t, k t = k' t) -> star_lazy cs k s = star_lazy cs k' s.
Proof.
  intros H. induction s as [|c s IH]; cbn [star_lazy]; rewrite H.
  - reflexivity.
  - now rewrite IH.
Qed.

End LazyFacts.

Lemma search_as_lazy (r : regex) (s : str) :
  search r s = option_map fst (star_lazy Dot (match_at r) s).
Proof.
  induction s as [|c s IH]; cbn [search star_lazy].
  - now destruct (match_at r []) as [[caps rest]|].
  - destruct (match_at r (c :: s)) as [[caps rest]|]; [reflexivity|].
    exact IH.
Qed.

Lemma search_section (marker open close : string) (content : str) :
  search (Seq [Lit marker; Star Dot false; Lit open;
               Group (Star Dot false); Lit close]) content =
  option_map (fun g => [g]) (section_after marker open close content).
Proof.
  rewrite search_as_lazy. unfold section_after.
  set (inner := fun s2 : str =>
         match find_first (lit close) s2 with
         | Some (g, rest) => Some ([g], rest)
         | None => None
         end).
  set (outer := fun s1 : str =>
         match find_first (lit open) s1 with
         | Some (_, s2) => inner s2
         | None => None
         end).
  assert (Hinner : forall t t', inner t = None -> is_suffix t' t ->
                                inner t' = None).
  { unfold inner. intros t t' H Hsuf.
    destruct (find_first (lit close) t) as [[g rest]|] eqn:E; [discriminate|].
    now rewrite (find_first_None_suffix _ _ _ E Hsuf). }
  assert (Houter : forall t t', outer t = None -> is_suffix t' t ->
                                outer t' = None).
  { unfold outer. intros t t' H [x ->].
    destruct (find_first (lit open) t') as [[a' s2']|] eqn:E'; [|reflexivity].
    apply find_first_Some in E'.
    destruct (find_first (lit open) (x ++ t')) as [[a s2]|] eqn:E.
    - apply (Hinner s2 s2' H). apply find_first_Some in E as E0.
      apply (is_suffix_same (x ++ t') s2 s2' (a ++ lit open)
               (x ++ a' ++ lit open)).
      + now rewrite E0, <- app_assoc.
      + now rewrite E', <- !app_assoc.
      + pose proof (find_first_leftmost _ _ _ _ E (x ++ a') s2') as Hle.
        rewrite E', <- app_assoc in Hle. specialize (Hle eq_refl).
        apply (f_equal (@List.length N)) in E0.
        rewrite E' in E0. rewrite !length_app in *. lia.
    - exfalso. apply (find_first_None _ _ E (x ++ a') s2').
      now rewrite E', <- app_assoc. }
  assert (Hmatch : forall s,
            match_at (Seq [Lit marker; Star Dot false; Lit open;
                           Group (Star Dot false); Lit close]) s =
            match strip_prefix (lit marker) s with
            | Some s1 => outer s1
            | None => None
            end).
  { intros s. unfold match_at. cbn [Seq fold_right run].
    destruct (strip_prefix (lit marker) s) as [s1|]; [|reflexivity].
    unfold outer. rewrite <- (star_lazy_lit _ (lit open) inner s1 Hinner).
    apply star_lazy_ext. intros t.
    destruct (strip_prefix (lit open) t) as [t'|]; [|reflexivity].
    pose proof (star_lazy_capture _ (lit close)
                  (fun g rest => ([g], rest)) [] t') as Hc.
    cbn [app] in Hc. unfold inner. rewrite <- Hc.
    apply star_lazy_ext. intros u. cbn [app].
    now destruct (strip_prefix (lit close) u) as [u'|]. }
  rewrite (star_lazy_ext _ Dot _ _ content Hmatch).
  rewrite (star_lazy_lit _ (lit marker) outer content Houter).
  destruct (find_first (lit marker) content) as [[a s1]|]; [|reflexivity].
  unfold outer. destruct (find_first (lit open) s1) as [[b s2]|];
    [|reflexivity].
  unfold inner. now destruct (find_first (lit close) s2) as [[g rest]|].
Qed.

Lemma find_first_occurs (p s a b : str) :
  s = a ++ p ++ b ->
  exists a0 b0, find_first p s = Some (a0, b0) /\ is_suffix b b0.
Proof.
  intros Hs. destruct (find_first p s) as [[a0 b0]|] eqn:E.
  - exists a0, b0. split; [reflexivity|].
    pose proof (find_first_leftmost _ _ _ _ E a b Hs) as Hle.
    apply find_first_Some in E.
    apply (is_suffix_same s b0 b (a0 ++ p) (a ++ p)).
    + now rewrite E, <- app_assoc.
    + now rewrite Hs, <- app_assoc.
    + apply (f_equal (@List.length N)) in E. rewrite Hs in E.
      rewrite !length_app in E. lia.
  - exfalso. exact (find_first_None _ _ E a b Hs).
Qed.

(** There is a section exactly when the content holds the marker, later
    the opening text and later the closing text. *)
Lemma section_after_None (marker open close : string) (content : str) :
  section_after marker open close content = None <->
  ~ exists a b g d,
      content = a ++ lit marker ++ b ++ lit open ++ g ++ lit close ++ d.
Proof.
  unfold section_after. split.
  - intros H (a & b & g & d & Hc).
    destruct (find_first_occurs _ _ _ _ Hc) as (a0 & s1 & E1 & [x1 ->]).
    rewrite E1 in H.
    assert (H1 : x1 ++ b ++ lit open ++ g ++ lit close ++ d =
                 (x1 ++ b) ++ lit open ++ g ++ lit close ++ d)
      by now rewrite <- app_assoc.
    destruct (find_first_occurs _ _ _ _ H1) as (b0 & s2 & E2 & [x2 ->]).
    rewrite E2 in H.
    assert (H2 : x2 ++ g ++ lit close ++ d = (x2 ++ g) ++ lit close ++ d)
      by now rewrite <- app_assoc.
    destruct (find_first_occurs _ _ _ _ H2) as (g0 & d0 & E3 & _).
    rewrite E3 in H. discriminate.
  - intros H.
    destruct (find_first (lit marker) content) as [[a s1]|] eqn:E1;
      [|reflexivity].
    destruct (find_first (lit open) s1) as [[b s2]|] eqn:E2; [|reflexivity].
    destruct (find_first (lit close) s2) as [[g d]|] eqn:E3; [|reflexivity].
    exfalso. apply H. exists a, b, g, d.
    apply find_first_Some in E1, E2, E3. now rewrite E1, E2, E3.
Qed.

(** X9: the two section patterns.  The materials are read from the text
    between the first opening bracket after the first occurrence of
    "export const MATERIAL_PALETTE" and the first "];" after that bracket;
    the existing profiles from the text between the first opening brace
    after the first "MATERIAL_LIFECYCLE_PROFILES" and the first "};" after
    that brace.  The script exits with status 1 exactly when the content
    does not hold the palette name, later a bracket and later "];"; a
    content without a profile section has no existing profile. *)
Theorem section_patterns (U : UnicodeData) (content : str) :
  search PALETTE_RE content =
    option_map (fun g => [g])
      (section_after "export const MATERIAL_PALETTE" "[" "];" content) /\
  search PROFILES_SECTION_RE content =
    option_map (fun g => [g])
      (section_after "MATERIAL_LIFECYCLE_PROFILES" "{" "};" content) /\
  (main content = Exit 1 <->
   ~ exists a b g d,
       content = a ++ lit "export const MATERIAL_PALETTE" ++ b ++
                 lit "[" ++ g ++ lit "];" ++ d) /\
  ((~ exists a b g d,
       content = a ++ lit "MATERIAL_LIFECYCLE_PROFILES" ++ b ++
                 lit "{" ++ g ++ lit "};" ++ d) ->
   read_existing_profiles content = []).
Proof.
  pose proof (search_section "export const MATERIAL_PALETTE" "[" "];" content)
    as Hpal.
  pose proof (search_section "MATERIAL_LIFECYCLE_PROFILES" "{" "};" content)
    as Hsec.
  split; [exact Hpal|]. split; [exact Hsec|]. split.
  - rewrite <- section_after_None. unfold main.
    change (search PALETTE_RE content) with
      (search (Seq [Lit "export const MATERIAL_PALETTE"; Star Dot false;
                    Lit "["; Group (Star Dot false); Lit "];"]) content).
    rewrite Hpal.
    destruct (section_after _ _ _ content); cbn [option_map];
      split; intros H; (reflexivity || discriminate).
  - intros H. apply section_after_None in H. unfold read_existing_profiles.
    change (search PROFILES_SECTION_RE content) with
      (search (Seq [Lit "MATERIAL_LIFECYCLE_PROFILES"; Star Dot false;
                    Lit "{"; Group (Star Dot false); Lit "};"]) content).
    now rewrite Hsec, H.
Qed.

Lemma section_patterns_witness :
  read_existing_profiles sample_palette = [].
Proof.
  apply (proj2 (proj2 (proj2 (section_patterns latin sample_palette)))).
  rewrite <- section_after_None. reflexivity.
Defined.

(** ** Reading a well-formed palette *)

Section RunFacts.
Variable R : Type.

Lemma run_Lit (l : string) (s : str) caps (k : str -> list str -> option R) :
  run (Lit l) (lit l ++ s) caps k = k s caps.
Proof. cbn [run]. now rewrite strip_prefix_app. Qed.

(** A greedy repetition takes the whole run when what follows accepts the
    rest. *)
Lemma star_greedy_longest cs (k : str -> option R) (m s : str) res :
  Forall (fun c => in_charset cs c = true) m ->
  starts_in (in_charset cs) s = false ->
  k s = Some res ->
  star_greedy cs k (m ++ s) = Some res.
Proof.
  intros Hm Hs Hk. induction Hm as [|c m Hc _ IH].
  - cbn [app]. destruct s as [|c s]; [exact Hk|].
    cbn [star_greedy]. cbn [starts_in] in Hs. now rewrite Hs.
  - cbn [app star_greedy]. now rewrite Hc, IH.
Qed.

Lemma strip_prefix_app_None (p s r : str) :
  strip_prefix p s = None -> List.length p <= List.length s ->
  strip_prefix p (s ++ r) = None.
Proof.
  revert s; induction p as [|a p IH]; intros s H Hlen; [discriminate|].
  destruct s as [|b s]; [cbn in Hlen; lia|].
  cbn [app strip_prefix] in *. destruct (a =? b)%N; [|reflexivity].
  apply IH; [exact H | cbn in Hlen; lia].
Qed.

(** A lazy [.*?] before literal text [p] skips [x] when [p] first occurs
    right after [x] and what follows [p] accepts the rest. *)
Lemma star_lazy_first (p : string) (k : str -> option R) (x s : str) res :
  first_at_end p x ->
  k s = Some res ->
  star_lazy Dot
    (fun t => match strip_prefix (lit p) t with
              | Some t' => k t'
              | None => None
              end) (x ++ lit p ++ s) = Some res.
Proof.
  unfold first_at_end. intros Hx Hk. induction x as [|c x IH].
  - cbn [app]. destruct (lit p ++ s) as [|c t] eqn:E;
      cbn [star_lazy]; rewrite <- E, strip_prefix_app; now rewrite Hk.
  - cbn [app find_first] in Hx.
    destruct (strip_prefix (lit p) (c :: x ++ lit p)) as [rest|] eqn:E;
      [discriminate|].
    destruct (find_first (lit p) (x ++ lit p)) as [[a b]|] eqn:F;
      [|discriminate].
    injection Hx as -> ->.
    cbn [app star_lazy].
    assert (E' : strip_prefix (lit p) (c :: x ++ lit p ++ s) = None).
    { change (c :: x ++ lit p ++ s) with ((c :: x) ++ lit p ++ s).
      rewrite app_assoc. apply strip_prefix_app_None; [exact E|].
      cbn [app List.length]. rewrite length_app. lia. }
    rewrite E'. cbn [in_charset]. now apply IH.
Qed.

Lemma star_lazy_here cs (k : str -> option R) (s : str) res :
  k s = Some res -> star_lazy cs k s = Some res.
Proof. intros H. destruct s; cbn [star_lazy]; now rewrite H. Qed.

(** The same when what follows looks back at the position reached, as a
    group does. *)
Lemma star_lazy_first_at (p : string) (k : str -> str -> option R)
    (x s : str) res :
  first_at_end p x ->
  k (lit p ++ s) s = Some res ->
  star_lazy Dot
    (fun t => match strip_prefix (lit p) t with
              | Some t' => k t t'
              | None => None
              end) (x ++ lit p ++ s) = Some res.
Proof.
  unfold first_at_end. intros Hx Hk. induction x as [|c x IH].
  - cbn [app]. apply star_lazy_here. now rewrite strip_prefix_app.
  - cbn [app find_first] in Hx.
    destruct (strip_prefix (lit p) (c :: x ++ lit p)) as [rest|] eqn:E;
      [discriminate|].
    destruct (find_first (lit p) (x ++ lit p)) as [[a b]|] eqn:F;
      [|discriminate].
    injection Hx as -> ->.
    cbn [app star_lazy].
    assert (E' : strip_prefix (lit p) (c :: x ++ lit p ++ s) = None).
    { change (c :: x ++ lit p ++ s) with ((c :: x) ++ lit p ++ s).
      rewrite app_assoc. apply strip_prefix_app_None; [exact E|].
      cbn [app List.length]. rewrite length_app. lia. }
    rewrite E'. cbn [in_charset]. now apply IH.
Qed.

End RunFacts.

Lemma not_in_forall (x : N) (m : str) :
  ~ In x m -> Forall (fun c => in_charset (NotChar x) c = true) m.
Proof.
  intros H. apply Forall_forall. intros c Hc. cbn [in_charset].
  destruct (N.eqb_spec c x) as [->|]; [contradiction | reflexivity].
Qed.

(** The material pattern on an object written as [palette_object]
    describes. *)
Lemma match_at_MATERIAL_RE
    (ws1 ws2 mat_id x1 ws3 mat_name x2 ws4 desc x3 ws5 kw rest : str) :
  spaces ws1 -> spaces ws2 -> spaces ws3 -> spaces ws4 -> spaces ws5 ->
  mat_id <> [] -> ~ In 39%N mat_id ->
  ~ In 39%N mat_name -> ~ In 39%N desc -> ~ In 93%N kw ->
  first_at_end "name:" x1 ->
  first_at_end "description:" x2 ->
  first_at_end "keywords:" x3 ->
  match_at MATERIAL_RE
    (lit "{" ++ ws1 ++ lit "id:" ++ ws2 ++
     lit "'" ++ mat_id ++ lit "'" ++
     x1 ++ lit "name:" ++ ws3 ++ lit "'" ++ mat_name ++ lit "'" ++
     x2 ++ lit "description:" ++ ws4 ++ lit "'" ++ desc ++ lit "'" ++
     x3 ++ lit "keywords:" ++ ws5 ++ lit "[" ++ kw ++ lit "]" ++ rest) =
  Some ([mat_id; mat_name; desc; kw], rest).
Proof.
  intros W1 W2 W3 W4 W5 Hne Hid Hname Hdesc Hkw F1 F2 F3.
  apply not_in_forall in Hname, Hdesc.
  destruct mat_id as [|c mat_id]; [congruence|].
  assert (Hc : in_charset (NotChar 39) c = true).
  { cbn [in_charset]. destruct (N.eqb_spec c 39) as [->|]; [|reflexivity].
    exfalso. apply Hid. now left. }
  assert (Hid' : Forall (fun c => in_charset (NotChar 39) c = true) mat_id).
  { apply not_in_forall. intros H. apply Hid. now right. }
  assert (Hkw' : first_at_end "]" kw).
  { unfold first_at_end. clear -Hkw. induction kw as [|x kw IH]; [reflexivity|].
    cbn [app find_first strip_prefix lit list_ascii_of_string map].
    destruct (N.eqb_spec (N_of_ascii "]") x) as [<-|_];
      [exfalso; apply Hkw; now left|].
    cbn [lit list_ascii_of_string map] in IH.
    rewrite IH; [reflexivity|]. intros H. apply Hkw. now right. }
  unfold match_at, MATERIAL_RE, Plus. cbn [Seq fold_right].
  cbn [run]. rewrite strip_prefix_app.
  apply star_greedy_longest; [exact W1 | reflexivity|].
  rewrite strip_prefix_app.
  apply star_greedy_longest; [exact W2 | reflexivity|].
  rewrite strip_prefix_app. cbn [app]. rewrite Hc.
  apply star_greedy_longest; [exact Hid' | reflexivity|].
  rewrite strip_prefix_app.
  apply (star_lazy_first _ "name:" _ x1); [exact F1|].
  apply star_greedy_longest; [exact W3 | reflexivity|].
  rewrite strip_prefix_app.
  apply star_greedy_longest; [exact Hname | reflexivity|].
  rewrite strip_prefix_app.
  apply (star_lazy_first _ "description:" _ x2); [exact F2|].
  apply star_greedy_longest; [exact W4 | reflexivity|].
  rewrite strip_prefix_app.
  apply star_greedy_longest; [exact Hdesc | reflexivity|].
  rewrite strip_prefix_app.
  apply (star_lazy_first _ "keywords:" _ x3); [exact F3|].
  apply star_greedy_longest; [exact W5 | reflexivity|].
  rewrite strip_prefix_app.
  apply (star_lazy_first_at _ "]"
           (fun t t' =>
              match strip_prefix (lit "") t' with
              | Some s' =>
                  Some ([firstn _ _; firstn _ _; firstn _ _;
                         firstn (List.length (kw ++ lit "]" ++ rest) -
                                 List.length t) (kw ++ lit "]" ++ rest)], s')
              | None => None
              end) kw); [exact Hkw'|].
  change (strip_prefix (lit "") rest) with (Some rest). cbv iota beta.
  change (c :: mat_id ++ lit "'" ++ x1 ++ lit "name:" ++ ws3 ++ lit "'" ++
          mat_name ++ lit "'" ++ x2 ++ lit "description:" ++ ws4 ++ lit "'" ++
          desc ++ lit "'" ++ x3 ++ lit "keywords:" ++ ws5 ++ lit "[" ++
          kw ++ lit "]" ++ rest)
    with ((c :: mat_id) ++ lit "'" ++ x1 ++ lit "name:" ++ ws3 ++ lit "'" ++
          mat_name ++ lit "'" ++ x2 ++ lit "description:" ++ ws4 ++ lit "'" ++
          desc ++ lit "'" ++ x3 ++ lit "keywords:" ++ ws5 ++ lit "[" ++
          kw ++ lit "]" ++ rest).
  now rewrite !firstn_consumed.
Qed.

Lemma finditer_from_skip (r : regex) (a s : str) :
  finditer_from r (a ++ s) (List.length a) = finditer_from r s 0.
Proof. induction a as [|c a IH]; [reflexivity | exact IH]. Qed.

Lemma finditer_from_match (r : regex) (c : N) (m rest : str) caps :
  match_at r (c :: m ++ rest) = Some (caps, rest) ->
  finditer_from r (c :: m ++ rest) 0 = caps :: finditer_from r rest 0.
Proof.
  intros H. cbn [finditer_from]. rewrite H. f_equal.
  replace (List.length (c :: m ++ rest) - List.length rest - 1)
    with (List.length m)
    by (cbn [List.length]; rewrite length_app; lia).
  apply finditer_from_skip.
Qed.

Lemma MATERIAL_RE_start (s : str) :
  starts_in (N.eqb 123) s = false -> match_at MATERIAL_RE s = None.
Proof.
  intros H. unfold match_at, MATERIAL_RE. cbn [Seq fold_right run].
  destruct s as [|c s]; [reflexivity|]. cbn [starts_in] in H.
  cbn [lit list_ascii_of_string map strip_prefix].
  change (N_of_ascii "{") with 123%N. now rewrite H.
Qed.

Lemma finditer_MATERIAL_RE_gap (gap s : str) :
  ~ In 123%N gap ->
  finditer_from MATERIAL_RE (gap ++ s) 0 = finditer_from MATERIAL_RE s 0.
Proof.
  induction gap as [|c gap IH]; intros Hgap; [reflexivity|].
  cbn [app finditer_from]. rewrite MATERIAL_RE_start.
  - apply IH. intros H. apply Hgap. now right.
  - cbn [starts_in]. destruct (N.eqb_spec 123 c) as [<-|]; [|reflexivity].
    exfalso. apply Hgap. now left.
Qed.

(** X10: a palette written in the expected way is read exactly.  When the
    text lists objects whose fields id, name, description and keywords
    come in this order, with a non-empty id, no single quote inside the
    three quoted fields and no closing bracket inside the keyword array,
    [read_materials] returns these materials, in order, with the keywords
    parsed from each array; other fields, line breaks and comments may
    stand between the fields as long as they do not hold the name of the
    next field, and anything without an opening brace may stand between
    the objects. *)
Theorem read_materials_palette_text (text : str) (materials : list material) :
  palette_text text materials -> read_materials text = materials.
Proof.
  unfold read_materials, finditer.
  induction 1 as [tail Htail
                 | gap ws1 ws2 mat_id x1 ws3 mat_name x2 ws4 desc x3 ws5 kw
                     rest materials Hgap W1 W2 W3 W4 W5 Hne Hid Hname Hdesc
                     Hkw F1 F2 F3 _ IH].
  - rewrite <- (app_nil_r tail), finditer_MATERIAL_RE_gap by exact Htail.
    cbn [finditer_from]. now rewrite MATERIAL_RE_start.
  - rewrite finditer_MATERIAL_RE_gap by exact Hgap.
    pose proof (match_at_MATERIAL_RE ws1 ws2 mat_id x1 ws3 mat_name x2 ws4
                  desc x3 ws5 kw rest W1 W2 W3 W4 W5 Hne Hid Hname Hdesc Hkw
                  F1 F2 F3) as Hm.
    set (object := ws1 ++ lit "id:" ++ ws2 ++ lit "'" ++ mat_id ++ lit "'" ++
           x1 ++ lit "name:" ++ ws3 ++ lit "'" ++ mat_name ++ lit "'" ++
           x2 ++ lit "description:" ++ ws4 ++ lit "'" ++ desc ++ lit "'" ++
           x3 ++ lit "keywords:" ++ ws5 ++ lit "[" ++ kw ++ lit "]").
    assert (Hobj : lit "{" ++ ws1 ++ lit "id:" ++ ws2 ++ lit "'" ++ mat_id ++
                   lit "'" ++ x1 ++ lit "name:" ++ ws3 ++ lit "'" ++
                   mat_name ++ lit "'" ++ x2 ++ lit "description:" ++ ws4 ++
                   lit "'" ++ desc ++ lit "'" ++ x3 ++ lit "keywords:" ++
                   ws5 ++ lit "[" ++ kw ++ lit "]" ++ rest =
                   123%N :: object ++ rest).
    { unfold object. change (lit "{") with [123%N]. cbn [app].
      now rewrite <- !app_assoc. }
    rewrite Hobj in *. rewrite (finditer_from_match _ _ _ _ _ Hm).
    cbn [map group Nat.sub nth]. now rewrite IH.
Qed.

Lemma read_materials_palette_text_witness :
  read_materials sample_palette = [sample_material].
Proof.
  apply read_materials_palette_text.
  apply (palette_object [] (lit " ") (lit " ") (lit "oak") (lit ", ")
           (lit " ") (lit "Oak") (lit ", ") (lit " ") (lit "boards")
           (lit ", ") (lit " ") (lit "'wood'") (lit " }") []);
    try (repeat constructor; fail);
    try discriminate;
    try (cbn; intros H; repeat destruct H as [H|H];
         discriminate || contradiction);
    try reflexivity.
  apply palette_end.
  cbn; intros H; repeat destruct H as [H|H]; discriminate || contradiction.
Defined.

(** ** The profile id pattern *)

Lemma star_greedy_exact (R : Type) cs (k : str -> option R) (m s : str) :
  Forall (fun c => in_charset cs c = true) m ->
  starts_in (in_charset cs) s = false ->
  (forall c t, in_charset cs c = true -> k (c :: t) = None) ->
  star_greedy cs k (m ++ s) = k s.
Proof.
  intros Hm Hs Hk. induction Hm as [|c m Hc _ IH].
  - cbn [app]. destruct s as [|c s]; [reflexivity|].
    cbn [star_greedy]. cbn [starts_in] in Hs. now rewrite Hs.
  - cbn [app star_greedy]. rewrite Hc, IH.
    destruct (k s) as [r|]; [reflexivity|]. now apply Hk.
Qed.

Lemma lstrip_with_split (f : N -> bool) (s : str) :
  exists ws, s = ws ++ lstrip_with f s /\ Forall (fun c => f c = true) ws.
Proof.
  induction s as [|c s (ws & IH & Hws)]; [now exists []|].
  cbn [lstrip_with]. destruct (f c) eqn:E; [|now exists []].
  exists (c :: ws). cbn [app]. split; [now f_equal | now constructor].
Qed.

Lemma opens_split (t : str) :
  opens t = true ->
  exists ws, spaces ws /\ t = lit ":" ++ ws ++ lit "{" ++ after_open t.
Proof.
  unfold opens, after_open. destruct t as [|c t1]; [discriminate|].
  intros H. apply andb_true_iff in H as [Hc H]. apply N.eqb_eq in Hc. subst c.
  cbn [tl]. destruct (lstrip_with_split is_space t1) as (ws & E & Hws).
  exists ws. split; [exact Hws|].
  destruct (lstrip_with is_space t1) as [|d t2]; [discriminate|].
  cbn [starts_in] in H. apply N.eqb_eq in H. subst d.
  cbn [tl]. rewrite E at 1. reflexivity.
Qed.

Lemma PROFILE_ID_RE_start (s : str) :
  starts_in (N.eqb 39) s = false -> match_at PROFILE_ID_RE s = None.
Proof.
  intros H. unfold match_at, PROFILE_ID_RE. cbn [Seq fold_right run].
  destruct s as [|c s]; [reflexivity|]. cbn [starts_in] in H.
  cbn [lit list_ascii_of_string map strip_prefix].
  change (N_of_ascii "'") with 39%N. now rewrite H.
Qed.

Lemma PROFILE_ID_RE_after_id (R : Type) (k : str -> option R) :
  forall c t,
    in_charset (NotChar 39) c = true ->
    match strip_prefix (lit "':") (c :: t) with
    | Some s' => k s'
    | None => None
    end = None.
Proof.
  intros c t Hc. cbn [lit list_ascii_of_string map strip_prefix].
  change (N_of_ascii "'") with 39%N. cbn [in_charset] in Hc.
  rewrite N.eqb_sym. apply negb_true_iff in Hc. now rewrite Hc.
Qed.

(** The pattern at a single quote that is followed by the piece [h], a
    second quote and the piece [t]: it matches exactly when [h] is not
    empty and [t] opens a profile. *)
Lemma match_at_PROFILE_ID_RE (h t X : str) :
  ~ In 39%N h -> ~ In 39%N t ->
  starts_in (fun c => negb (c =? 39)%N) X = false ->
  match_at PROFILE_ID_RE (39%N :: h ++ 39%N :: t ++ X) =
  if negb (str_eqb h []) && opens t
  then Some ([h], after_open t ++ X)
  else None.
Proof.
  intros Hh Ht HX. unfold match_at, PROFILE_ID_RE, Plus.
  cbn [Seq fold_right run].
  change (strip_prefix (lit "'") (39%N :: h ++ 39%N :: t ++ X))
    with (Some (h ++ 39%N :: t ++ X)). cbv iota beta.
  destruct h as [|c h]; [reflexivity|].
  assert (Hc : in_charset (NotChar 39) c = true).
  { cbn [in_charset]. destruct (N.eqb_spec c 39) as [->|]; [|reflexivity].
    exfalso. apply Hh. now left. }
  cbn [app]. rewrite Hc. cbn [str_eqb negb andb].
  rewrite star_greedy_exact;
    [ | apply not_in_forall; intros H; apply Hh; now right
      | reflexivity
      | intros c' t' Hc'; now apply PROFILE_ID_RE_after_id ].
  change (c :: h ++ 39%N :: t ++ X) with ((c :: h) ++ 39%N :: t ++ X).
  rewrite firstn_consumed. cbn [app].
  change (strip_prefix (lit "':") (39%N :: t ++ X))
    with (strip_prefix (lit ":") (t ++ X)).
  destruct t as [|d t1].
  - cbn [app opens]. destruct X as [|x X]; [reflexivity|].
    cbn [starts_in] in HX. apply negb_false_iff, N.eqb_eq in HX. now subst x.
  - cbn [app lit list_ascii_of_string map strip_prefix opens].
    change (N_of_ascii ":") with 58%N. rewrite (N.eqb_sym 58 d).
    destruct (d =? 58)%N; [|reflexivity]. cbn [andb].
    destruct (lstrip_with_split is_space t1) as (ws & E & Hws).
    unfold after_open. cbn [tl].
    assert (Hstart : starts_in (in_charset Space)
                       (lstrip_with is_space t1 ++ X) = false).
    { destruct (lstrip_with is_space t1) as [|e t2] eqn:E2.
      - cbn [app]. destruct X as [|x X]; [reflexivity|].
        cbn [starts_in] in *. apply negb_false_iff, N.eqb_eq in HX.
        now subst x.
      - pose proof (lstrip_with_starts is_space t1) as Hs.
        rewrite E2 in Hs. exact Hs. }
    rewrite E at 1. rewrite <- app_assoc.
    rewrite star_greedy_exact; [ | exact Hws | exact Hstart | ].
    + destruct (lstrip_with is_space t1) as [|e t2].
      * cbn [app starts_in tl]. destruct X as [|x X]; [reflexivity|].
        cbn [starts_in] in HX. apply negb_false_iff, N.eqb_eq in HX.
        now subst x.
      * cbn [app lit list_ascii_of_string map strip_prefix starts_in tl].
        change (N_of_ascii "{") with 123%N.
        destruct (123 =? e)%N; reflexivity.
    + intros c' t' Hc'. cbn [in_charset] in Hc'.
      cbn [lit list_ascii_of_string map strip_prefix].
      change (N_of_ascii "{") with 123%N.
      destruct (N.eqb_spec 123 c') as [<-|]; [discriminate | reflexivity].
Qed.

Lemma match_at_PROFILE_ID_RE_unclosed (h : str) :
  ~ In 39%N h -> match_at PROFILE_ID_RE (39%N :: h) = None.
Proof.
  intros Hh. unfold match_at, PROFILE_ID_RE, Plus.
  cbn [Seq fold_right run].
  change (strip_prefix (lit "'") (39%N :: h)) with (Some h). cbv iota beta.
  destruct h as [|c h]; [reflexivity|].
  assert (Hc : in_charset (NotChar 39) c = true).
  { cbn [in_charset]. destruct (N.eqb_spec c 39) as [->|]; [|reflexivity].
    exfalso. apply Hh. now left. }
  rewrite Hc. rewrite <- (app_nil_r h).
  rewrite star_greedy_exact;
    [ reflexivity
    | apply not_in_forall; intros H; apply Hh; now right
    | reflexivity
    | intros c' t' Hc'; now apply PROFILE_ID_RE_after_id ].
Qed.

Lemma finditer_PROFILE_ID_RE_gap (g s : str) :
  ~ In 39%N g ->
  finditer_from PROFILE_ID_RE (g ++ s) 0 = finditer_from PROFILE_ID_RE s 0.
Proof.
  induction g as [|c g IH]; intros Hg; [reflexivity|].
  cbn [app finditer_from]. rewrite PROFILE_ID_RE_start.
  - apply IH. intros H. apply Hg. now right.
  - cbn [starts_in]. destruct (N.eqb_spec 39 c) as [<-|]; [|reflexivity].
    exfalso. apply Hg. now left.
Qed.

Lemma join_cons (sep x y : str) (rest : list str) :
  join sep (x :: y :: rest) = x ++ sep ++ join sep (y :: rest).
Proof. reflexivity. Qed.

Lemma join_tail (sep x : str) (rest : list str) :
  exists X,
    join sep (x :: rest) = x ++ X /\
    X = match rest with [] => [] | _ => sep ++ join sep rest end.
Proof.
  destruct rest as [|y rest]; eexists; split; try reflexivity.
  cbn [join]. now rewrite app_nil_r.
Qed.

(** The ids the pattern finds in a text cut at its single quotes are
    those [scan_pieces] reads off the pieces. *)
Lemma finditer_PROFILE_ID_RE_pieces (n : nat) :
  forall (pieces : list str) (p0 : str),
    List.length pieces <= n ->
    ~ In 39%N p0 -> Forall (fun p => ~ In 39%N p) pieces ->
    map (group 1) (finditer_from PROFILE_ID_RE (join [39%N] (p0 :: pieces)) 0)
    = scan_pieces pieces.
Proof.
  assert (Hnil : finditer_from PROFILE_ID_RE [] 0 = []) by reflexivity.
  assert (Hfree : forall g, ~ In 39%N g ->
                    finditer_from PROFILE_ID_RE g 0 = []).
  { intros g Hg. rewrite <- (app_nil_r g).
    now rewrite finditer_PROFILE_ID_RE_gap. }
  induction n as [|n IH]; intros pieces p0 Hlen Hp0 Hpieces.
  - destruct pieces; [|now inversion Hlen].
    cbn [join scan_pieces]. now rewrite Hfree.
  - destruct pieces as [|h rest]; [cbn [join scan_pieces]; now rewrite Hfree|].
    inversion Hpieces as [|? ? Hh Hrest]; subst.
    destruct rest as [|t more].
    + cbn [join scan_pieces]. rewrite finditer_PROFILE_ID_RE_gap by exact Hp0.
      cbn [app finditer_from]. rewrite match_at_PROFILE_ID_RE_unclosed by exact Hh.
      now rewrite Hfree.
    + inversion Hrest as [|? ? Ht Hmore]; subst.
      rewrite join_cons. rewrite finditer_PROFILE_ID_RE_gap by exact Hp0.
      destruct (join_tail [39%N] t more) as (X & EX & HX).
      assert (HXs : starts_in (fun c => negb (c =? 39)%N) X = false).
      { subst X. now destruct more. }
      pose proof (match_at_PROFILE_ID_RE h t X Hh Ht HXs) as Hm.
      rewrite join_cons. rewrite EX. cbn [app scan_pieces].
      destruct (negb (str_eqb h []) && opens t) eqn:E.
      * apply andb_true_iff in E as [_ Eo].
        destruct (opens_split t Eo) as (ws & Hws & Et).
        set (a := after_open t) in *.
        assert (Ha : ~ In 39%N a).
        { intros Hin. apply Ht. rewrite Et.
          apply in_or_app; right. apply in_or_app; right.
          apply in_or_app; right. exact Hin. }
        assert (Etext : h ++ 39%N :: t ++ X
                        = (h ++ 39%N :: lit ":" ++ ws ++ lit "{") ++ a ++ X).
        { rewrite Et at 1. repeat (rewrite <- !app_assoc; cbn [app]).
          reflexivity. }
        rewrite Etext in Hm |- *.
        rewrite (finditer_from_match _ _ _ _ _ Hm).
        cbn [map group Nat.sub nth]. f_equal.
        assert (Ejoin : a ++ X = join [39%N] (a :: more)).
        { subst X. destruct more; [now rewrite app_nil_r | reflexivity]. }
        rewrite Ejoin. apply IH; [simpl in Hlen; lia | exact Ha | exact Hmore].
      * cbn [finditer_from]. rewrite Hm.
        assert (Ejoin : h ++ 39%N :: t ++ X = join [39%N] (h :: t :: more)).
        { rewrite join_cons, EX. reflexivity. }
        rewrite Ejoin. apply IH; [simpl in Hlen |- *; lia | exact Hh | exact Hrest].
Qed.

Lemma getitem_Ok_entry {V : Type} (d : dict V) (k : str) (v : V) :
  getitem d k = Ok v -> exists k', In (k', v) d.
Proof.
  induction d as [|[k' v'] d IH]; [discriminate|].
  cbn [getitem]. destruct (getitem d k) as [w|e].
  - intros [= ->]. destruct (IH eq_refl) as (k0 & H). exists k0. now right.
  - destruct (str_eqb k' k); [|discriminate].
    intros [= ->]. exists k'. now left.
Qed.

Lemma join_split (sep : N) (s : str) : join [sep] (str_split sep s) = s.
Proof.
  induction s as [|c s IH]; [reflexivity|]. cbn [str_split].
  destruct (str_split_cons sep s) as (x & xs & E). rewrite E in IH |- *.
  destruct (N.eqb_spec c sep) as [->|_].
  - rewrite <- IH. reflexivity.
  - rewrite <- IH. destruct xs; reflexivity.
Qed.

Lemma join_glue (sep : str) (ps : list str) (b y p : str) (qs : list str) :
  join sep (ps ++ [b]) ++ y ++ join sep (p :: qs)
  = join sep (ps ++ (b ++ y ++ p) :: qs).
Proof.
  induction ps as [|a ps IH].
  - cbn [app]. destruct qs as [|q qs].
    + reflexivity.
    + rewrite !join_cons. cbn [join]. now rewrite <- !app_assoc.
  - cbn [app].
    assert (H1 : join sep (a :: ps ++ [b]) = a ++ sep ++ join sep (ps ++ [b]))
      by (destruct ps; reflexivity).
    assert (H2 : join sep (a :: ps ++ (b ++ y ++ p) :: qs)
                 = a ++ sep ++ join sep (ps ++ (b ++ y ++ p) :: qs))
      by (destruct ps; reflexivity).
    rewrite H1, H2, <- IH. now rewrite <- !app_assoc.
Qed.

Lemma opens_keeps_closed (b x : str) :
  keeps_closed b = true -> opens (b ++ x) = false.
Proof.
  destruct b as [|c b]; [discriminate|]. cbn [keeps_closed app opens].
  intros H. apply negb_true_iff in H. now rewrite H.
Qed.

Lemma scan_pieces_skip (mid : list str) :
  forall (a : str) (rest : list str),
    Forall (fun p => opens p = false) mid ->
    scan_pieces (a :: mid ++ rest) = scan_pieces (last mid a :: rest).
Proof.
  induction mid as [|m mid IH]; intros a rest Hmid; [reflexivity|].
  inversion Hmid as [|? ? Hm Hmid']; subst.
  cbn [app]. cbn [scan_pieces]. rewrite Hm, andb_false_r.
  change (scan_pieces (m :: mid ++ rest) = scan_pieces (last (m :: mid) a :: rest)).
  rewrite (IH m rest Hmid'). f_equal. f_equal.
  clear. revert m. induction mid as [|x mid IH]; intros m; [reflexivity|].
  cbn [last] in IH |- *. destruct mid; [reflexivity | apply IH].
Qed.

Lemma scan_pieces_hit (h t : str) (more : list str) :
  negb (str_eqb h []) && opens t = true ->
  scan_pieces (h :: t :: more) = h :: scan_pieces more.
Proof. intros H. cbn [scan_pieces]. now rewrite H. Qed.

Lemma scan_pieces_skip1 (a : str) (pieces : list str) :
  opens (hd [] pieces) = false -> scan_pieces (a :: pieces) = scan_pieces pieces.
Proof.
  destruct pieces as [|p pieces]; [reflexivity|]. cbn [hd]. intros H.
  cbn [scan_pieces]. now rewrite H, andb_false_r.
Qed.

(** A rendered record is its id between quotes, two blanks in front and
    the body of the profile behind. *)
Lemma format_profile_body (mat_id : str) (profile : dict rating) (text : str) :
  format_profile mat_id profile = Ok text ->
  exists body,
    record_body profile = Ok body /\
    text = lit "  " ++ lit "'" ++ mat_id ++ lit "'" ++ body.
Proof.
  unfold record_body, format_profile, bind.
  repeat match goal with
         | |- context [getitem profile ?k] =>
             destruct (getitem profile k); [|discriminate]
         end.
  intros [= <-]. eexists. split; [reflexivity|].
  cbn [lit list_ascii_of_string map app skipn]. reflexivity.
Qed.

Lemma PROFILES_bodies (c : str) (profile : dict rating) :
  In (c, profile) PROFILES ->
  exists body, record_body profile = Ok body /\ body_scans body = true.
Proof.
  assert (H : forallb (fun kv => match record_body (snd kv) with
                                  | Ok body => body_scans body
                                  | Raise _ => false
                                  end) PROFILES = true)
    by (vm_compute; reflexivity).
  rewrite forallb_forall in H. intros Hin. specialize (H _ Hin).
  cbn [snd] in H. destruct (record_body profile) as [body|]; [|discriminate].
  now exists body.
Qed.

(** The pieces of a record of the script's table. *)
Lemma record_of_PROFILES_pieces {U : UnicodeData} (mat : material) (text : str) :
  record_of PROFILES mat text ->
  exists b0 c1 mid b7,
    text = join [39%N] (lit "  " :: id mat :: b0 :: c1 :: mid ++ [b7]) /\
    opens b0 = true /\
    Forall (fun p => opens p = false) mid /\
    keeps_closed b7 = true /\
    Forall (fun p => ~ In 39%N p) (b0 :: c1 :: mid ++ [b7]).
Proof.
  intros (profile & Hget & Hfmt).
  destruct (getitem_Ok_entry _ _ _ Hget) as (c & Hin).
  destruct (PROFILES_bodies c profile Hin) as (body & Hbody & Hscan).
  destruct (format_profile_body _ _ _ Hfmt) as (body' & Hbody' & ->).
  rewrite Hbody in Hbody'. injection Hbody' as <-.
  unfold body_scans in Hscan.
  pose proof (join_split 39 body) as Hjoin.
  pose proof (str_split_no_sep 39 body) as Hfree.
  destruct (str_split 39 body) as [|b0 [|c1 rest]]; try discriminate.
  apply andb_true_iff in Hscan as [Hscan Hlast].
  apply andb_true_iff in Hscan as [Hb0 Hrest].
  assert (Hne : rest <> []) by (intros ->; discriminate).
  destruct (exists_last Hne) as (mid & b7 & ->).
  rewrite last_last in Hlast.
  exists b0, c1, mid, b7. repeat split; try assumption.
  - rewrite <- Hjoin. reflexivity.
  - rewrite forallb_forall in Hrest. apply Forall_forall. intros p Hp.
    apply negb_true_iff, Hrest, in_or_app. now left.
Qed.

Lemma new_profiles_text_pieces {U : UnicodeData}
    (mats : list material) (records : list str) :
  Forall2 (record_of PROFILES) mats records ->
  Forall findable_id (map id mats) ->
  exists p0 pieces,
    new_profiles_text records = join [39%N] (p0 :: pieces) /\
    ~ In 39%N p0 /\ Forall (fun p => ~ In 39%N p) pieces /\
    scan_pieces pieces = map id mats /\
    opens (hd [] pieces) = false.
Proof.
  induction 1 as [|mat text mats records Hrec Hrest IH]; intros Hids.
  - exists [], []. repeat split; [intros [] | constructor].
  - cbn [map] in Hids. inversion Hids as [|? ? (Hne & Hq & Hopen) Hids']; subst.
    destruct (record_of_PROFILES_pieces mat text Hrec)
      as (b0 & c1 & mid & b7 & -> & Hb0 & Hmid & Hb7 & Hfree).
    assert (Hid : negb (str_eqb (id mat) []) && opens b0 = true).
    { rewrite Hb0, andb_true_r. apply negb_true_iff.
      destruct (str_eqb (id mat) []) eqn:E; [|reflexivity].
      apply str_eqb_eq in E. contradiction. }
    assert (Hblank : ~ In 39%N (lit "  "))
      by (intros H; cbn in H; repeat destruct H as [H|H]; discriminate || assumption).
    inversion Hfree as [|? ? Hfb0 Hfree1]; subst.
    inversion Hfree1 as [|? ? Hfc1 Hfree2]; subst.
    apply Forall_app in Hfree2 as [Hfmid Hfb7].
    inversion Hfb7 as [|? ? Hfb7' _]; subst.
    destruct records as [|text' records].
    + inversion Hrest; subst.
      exists (lit "  "), (id mat :: b0 :: c1 :: mid ++ [b7]).
      split; [reflexivity|]. split; [exact Hblank|].
      split; [constructor; [exact Hq | exact Hfree]|].
      split; [|exact Hopen].
      rewrite (scan_pieces_hit _ _ _ Hid). cbn [map]. f_equal.
      rewrite (scan_pieces_skip mid c1 [b7] Hmid).
      rewrite scan_pieces_skip1; [reflexivity|].
      cbn [hd]. rewrite <- (app_nil_r b7). now apply opens_keeps_closed.
    + destruct (IH Hids') as (p0 & pieces & Etext & Hp0 & Hpieces & Hscan & Hhd).
      exists (lit "  "),
        (id mat :: b0 :: c1 :: mid ++ (b7 ++ (lit "," ++ nl ++ nl) ++ p0) :: pieces).
      split.
      { unfold new_profiles_text in Etext |- *. rewrite join_cons, Etext.
        exact (join_glue [39%N] (lit "  " :: id mat :: b0 :: c1 :: mid)
                 b7 (lit "," ++ nl ++ nl) p0 pieces). }
      split; [exact Hblank|].
      split.
      { constructor; [exact Hq|]. constructor; [exact Hfb0|].
        constructor; [exact Hfc1|]. apply Forall_app. split; [exact Hfmid|].
        constructor; [|exact Hpieces].
        intros H. apply in_app_or in H as [H|H]; [now apply Hfb7'|].
        apply in_app_or in H as [H|H]; [|now apply Hp0].
        cbn in H. repeat destruct H as [H|H]; discriminate || assumption. }
      split; [|exact Hopen].
      rewrite (scan_pieces_hit _ _ _ Hid). cbn [map]. f_equal.
      rewrite (scan_pieces_skip mid c1 _ Hmid).
      rewrite scan_pieces_skip1
        by (cbn [hd]; now apply opens_keeps_closed).
      rewrite scan_pieces_skip1 by exact Hhd.
      exact Hscan.
Qed.

(** X11: the records the script generates are found again by the pattern
    with which it collects the existing profiles.  A run over the script's
    table completes, and when the ids of the materials it generates for
    can be found (not empty, without single quote, not of the form colon,
    white space, brace), the ids the profile pattern finds in the text the
    script inserts, the records joined by a comma and two line breaks, are
    exactly the ids of those materials, in the order of generation: the
    seven rating lines of a record are never taken for an id. *)
Theorem generated_profiles_are_found (U : UnicodeData)
    (existing_profiles : list str) (materials : list material) :
  Forall findable_id (map id (pending existing_profiles materials)) ->
  exists new_profiles,
    generate existing_profiles materials = Completed new_profiles /\
    map (group 1) (finditer PROFILE_ID_RE (new_profiles_text new_profiles))
    = map id (pending existing_profiles materials).
Proof.
  intros Hids. unfold generate.
  destruct (generate_from_PROFILES existing_profiles materials [])
    as (records & Hrun & Hrec).
  exists records. split; [exact Hrun|].
  destruct (new_profiles_text_pieces _ _ Hrec Hids)
    as (p0 & pieces & -> & Hp0 & Hpieces & Hscan & _).
  unfold finditer.
  rewrite (finditer_PROFILE_ID_RE_pieces (List.length pieces) pieces p0
             (le_n _) Hp0 Hpieces).
  exact Hscan.
Qed.

Lemma generated_profiles_are_found_witness :
  exists new_profiles,
    @generate latin [] [oak_flooring; wall_paint] = Completed new_profiles /\
    map (group 1) (finditer PROFILE_ID_RE (new_profiles_text new_profiles))
    = [lit "oak-flooring"; lit "wall-paint"].
Proof.
  apply (generated_profiles_are_found latin [] [oak_flooring; wall_paint]).
  repeat constructor; try discriminate;
    cbn; intros H; repeat destruct H as [H|H]; discriminate || contradiction.
Defined.

Lemma generate_from_concat_witness :
  exists records,
    @generate_from latin PROFILES [] [oak_flooring; wall_paint] []
    = Completed records /\
    @generate_from latin PROFILES []
      ([oak_flooring; wall_paint] ++ [oak_flooring; wall_paint]) []
    = Completed (records ++ records).
Proof.
  eexists. split.
  - vm_compute. reflexivity.
  - apply (proj2 (generate_from_concat latin PROFILES []
                    [oak_flooring; wall_paint] [])).
    vm_compute. reflexivity.
Defined.

(** X12: the script as a whole never ends with an uncaught exception of
    the generation loop, whatever constants.ts holds.  Either the palette
    is not found and it exits with status 1, or it generates exactly one
    record for every material read from the palette whose id is not among
    the existing profiles read from the same content, each the record of
    the material's category, in the order of the palette. *)
Theorem main_outcomes (U : UnicodeData) (content : str) :
  (search PALETTE_RE content = None /\ main content = Exit 1) \/
  (exists m new_profiles,
     search PALETTE_RE content = Some m /\
     main content = Generated (Completed new_profiles) /\
     Forall2 (record_of PROFILES)
       (pending (read_existing_profiles content)
                (read_materials (group 1 m)))
       new_profiles /\
     List.length new_profiles
     = List.length (filter (fun mat => negb (mem (id mat)
                                        (read_existing_profiles content)))
                      (read_materials (group 1 m)))).
Proof.
  unfold main. destruct (search PALETTE_RE content) as [m|]; [right | now left].
  destruct (generate_from_PROFILES (read_existing_profiles content)
              (read_materials (group 1 m)) [])
    as (records & Hrun & Hrec).
  exists m, records. split; [reflexivity|]. unfold generate. rewrite Hrun.
  split; [reflexivity|]. split; [exact Hrec|].
  symmetry. exact (Forall2_length Hrec).
Qed.
